(** * rss2bsky: a shallow embedding of [rss2bsky.py] and its verified properties

    The script reads an RSS feed, compares every entry with the newest
    top-level post of a Bluesky account and posts the newer entries as rich
    text with an image or link-card embed.

    Python values are modelled as follows.
    - [str] is a list of Unicode code points ([N]); [bytes] is a list of
      [Byte.byte].
    - An exception is a value of [exn]; a computation that may raise returns
      a [result].
    - The remote collaborators (HTTP, the AT-protocol client, the clock) are
      oracles that answer from the history of calls made so far; code that
      talks to them threads that history explicitly.
    - The rich-text builder is the list of the calls that returned; a call
      may raise (its text is encoded as UTF-8, which fails on a surrogate
      code point), as an oracle of the call's arguments decides.
    - A feed entry is known through the three reads the loop makes of it
      (title, link, time of publication), each of which may raise.  These
      reads and [make_rich] stand outside every [try] of [main]: their
      exceptions leave the loop and [main]. *)

From Stdlib Require Import String Ascii.
From Stdlib Require Import List NArith ZArith Lia Bool.
From Stdlib Require Import Strings.Byte.
From Equations Require Import Equations.
Import ListNotations.

Set Implicit Arguments.
Local Open Scope N_scope.

(* ===================================================================== *)
(** * Python strings *)
(* ===================================================================== *)

Definition char := N.
Definition str := list char.
Definition bytes := list byte.

(** A literal: the code points of an ASCII string constant. *)
Definition py (s : string) : str := map N_of_ascii (list_ascii_of_string s).
Arguments py s%_string.

Definition NL : char := 10.       (* "\n" *)
Definition HASH : char := 35.     (* "#"  *)
Definition AMP : char := 38.      (* "&"  *)
Definition SEMI : char := 59.     (* ";"  *)
Definition LT : char := 60.       (* "<"  *)
Definition GT : char := 62.       (* ">"  *)

Definition in_range (lo hi c : char) : bool := (lo <=? c) && (c <=? hi).

(** [str.isspace] on one code point (the Unicode whitespace of CPython). *)
Definition isspace (c : char) : bool :=
  in_range 9 13 c || in_range 28 32 c || (c =? 133) || (c =? 160)
  || (c =? 5760) || in_range 8192 8202 c || (c =? 8232) || (c =? 8233)
  || (c =? 8239) || (c =? 8287) || (c =? 12288).

(** The classes the two regular expressions use; in a [str] pattern
    [[0-9]], [[a-zA-Z0-9]] and [[0-9a-fA-F]] are plain code-point ranges. *)
Definition is_digit (c : char) : bool := in_range 48 57 c.
Definition is_alnum (c : char) : bool :=
  in_range 97 122 c || in_range 65 90 c || in_range 48 57 c.
Definition is_hexdigit (c : char) : bool :=
  in_range 48 57 c || in_range 97 102 c || in_range 65 70 c.

Fixpoint take_while (p : char -> bool) (s : str) : str :=
  match s with
  | c :: r => if p c then c :: take_while p r else []
  | [] => []
  end.

Fixpoint drop_while (p : char -> bool) (s : str) : str :=
  match s with
  | c :: r => if p c then drop_while p r else s
  | [] => []
  end.

(** [s.startswith(prefix)] *)
Fixpoint startswith (s prefix : str) {struct prefix} : bool :=
  match prefix, s with
  | [], _ => true
  | p :: ps, c :: r => (c =? p) && startswith r ps
  | _ :: _, [] => false
  end.

(** [s.lstrip()], [s.rstrip()], [s.strip()] *)
Definition lstrip (s : str) : str := drop_while isspace s.
Definition rstrip (s : str) : str := rev (drop_while isspace (rev s)).
Definition strip (s : str) : str := lstrip (rstrip s).

(** [s.rstrip(";")] *)
Definition rstrip_char (c : char) (s : str) : str :=
  rev (drop_while (N.eqb c) (rev s)).

(** [s.split(sep)] for a one-character separator: never empty, and the
    separators themselves are dropped. *)
Fixpoint split (sep : char) (s : str) : list str :=
  match s with
  | [] => [[]]
  | c :: r =>
      if c =? sep then [] :: split sep r
      else match split sep r with
           | l :: ls => (c :: l) :: ls
           | [] => [[c]]
           end
  end.

(** [sep.join(parts)] *)
Fixpoint join (sep : char) (parts : list str) : str :=
  match parts with
  | [] => []
  | [p] => p
  | p :: ps => p ++ sep :: join sep ps
  end.

(** [enumerate(l)] *)
Fixpoint enumerate_from {A} (i : nat) (l : list A) : list (nat * A) :=
  match l with
  | [] => []
  | x :: r => (i, x) :: enumerate_from (S i) r
  end.
Definition enumerate {A} (l : list A) : list (nat * A) := enumerate_from 0 l.

(* ===================================================================== *)
(** * The hashtag split: [re.split("(#[a-zA-Z0-9]+)", line)] *)
(* ===================================================================== *)

(** The pattern [#[a-zA-Z0-9]+] tried at the start of [s]: the text it
    matches (the [+] is greedy) and what follows it. *)
Definition match_tag (s : str) : option (str * str) :=
  match s with
  | c :: r =>
      if c =? HASH then
        match take_while is_alnum r with
        | [] => None
        | t => Some (c :: t, drop_while is_alnum r)
        end
      else None
  | [] => None
  end.

(** The leftmost match in [s]: the text before it, the match, the rest. *)
Fixpoint search_tag (s : str) : option (str * str * str) :=
  match match_tag s with
  | Some (m, post) => Some ([], m, post)
  | None =>
      match s with
      | [] => None
      | c :: r =>
          match search_tag r with
          | Some (pre, m, post) => Some (c :: pre, m, post)
          | None => None
          end
      end
  end.

Lemma take_drop_while p s : take_while p s ++ drop_while p s = s.
Proof.
  induction s as [|c r IH]; simpl; [reflexivity|].
  destruct (p c); simpl; [now rewrite IH | reflexivity].
Qed.

Lemma match_tag_app s m post : match_tag s = Some (m, post) -> s = m ++ post.
Proof.
  destruct s as [|c r]; simpl; [discriminate|].
  destruct (c =? HASH); [|discriminate].
  pose proof (take_drop_while is_alnum r) as E.
  destruct (take_while is_alnum r) as [|a t]; [discriminate|].
  intros [= <- <-]. simpl. f_equal. symmetry. exact E.
Qed.

Lemma match_tag_nonempty s m post : match_tag s = Some (m, post) -> m <> [].
Proof.
  destruct s as [|c r]; simpl; [discriminate|].
  destruct (c =? HASH); [|discriminate].
  destruct (take_while is_alnum r); [discriminate|].
  now intros [= <- _].
Qed.

Lemma search_tag_cons c r :
  search_tag (c :: r) =
  match match_tag (c :: r) with
  | Some (m, post) => Some ([], m, post)
  | None => match search_tag r with
            | Some (pre, m, post) => Some (c :: pre, m, post)
            | None => None
            end
  end.
Proof. reflexivity. Qed.

Lemma search_tag_app s pre m post :
  search_tag s = Some (pre, m, post) -> s = pre ++ m ++ post.
Proof.
  revert pre; induction s as [|c r IH]; intros pre.
  - discriminate.
  - rewrite search_tag_cons.
    destruct (match_tag (c :: r)) as [[m' post']|] eqn:E.
    + intros [= <- <- <-]. simpl. apply match_tag_app. exact E.
    + destruct (search_tag r) as [[[pre' m'] post']|]; [|discriminate].
      intros [= <- <- <-]. simpl. f_equal. now apply IH.
Qed.

Lemma search_tag_nonempty s pre m post :
  search_tag s = Some (pre, m, post) -> m <> [].
Proof.
  revert pre; induction s as [|c r IH]; intros pre.
  - discriminate.
  - rewrite search_tag_cons.
    destruct (match_tag (c :: r)) as [[m' post']|] eqn:E.
    + intros [= <- <- <-]. eapply match_tag_nonempty; eauto.
    + destruct (search_tag r) as [[[pre' m'] post']|]; [|discriminate].
      intros [= <- <- <-]. eapply IH; eauto.
Qed.

Lemma search_tag_shorter s pre m post :
  search_tag s = Some (pre, m, post) -> (length post < length s)%nat.
Proof.
  intros H. pose proof (search_tag_nonempty _ H) as Hm.
  apply search_tag_app in H. subst s. rewrite !length_app.
  destruct m; [congruence | simpl; lia].
Qed.

Definition inspect {A} (a : A) : {b : A | a = b} := exist _ a eq_refl.

(** [re.split] with the whole pattern in one capturing group: the text
    before the leftmost match, the match, and the split of the rest. *)
Equations? re_split (s : str) : list str by wf (length s) lt :=
  re_split s with inspect (search_tag s) := {
    | exist _ None _ := [s];
    | exist _ (Some (pre, m, post)) e := pre :: m :: re_split post }.
Proof. eapply search_tag_shorter; eauto. Qed.


(* ===================================================================== *)
(** * Exceptions *)
(* ===================================================================== *)

(** The exceptions the script can meet.  All of them derive from
    [Exception]; [UnicodeEncodeError] and [UnicodeDecodeError] derive from
    [ValueError]. *)
Inductive exn :=
| ValueError
| UnicodeEncodeError
| UnicodeDecodeError
| IndexError
| AttributeError     (* an attribute the object does not have *)
| HTTPError          (* httpx: transport errors and [raise_for_status] *)
| RemoteError.       (* anything a collaborator raises besides *)

Definition isinstance_ValueError (e : exn) : bool :=
  match e with
  | ValueError | UnicodeEncodeError | UnicodeDecodeError => true
  | _ => false
  end.

Definition isinstance_UnicodeDecodeError (e : exn) : bool :=
  match e with UnicodeDecodeError => true | _ => false end.

Definition isinstance_UnicodeEncodeError (e : exn) : bool :=
  match e with UnicodeEncodeError => true | _ => false end.

Inductive result (A : Type) :=
| Ok (a : A)
| Raise (e : exn).
Arguments Ok {A} a.
Arguments Raise {A} e.

Definition bind {A B} (c : result A) (k : A -> result B) : result B :=
  match c with
  | Ok a => k a
  | Raise e => Raise e
  end.

Declare Scope result_scope.
Delimit Scope result_scope with result.
Notation "x <- c ;; k" := (bind c (fun x => k))
  (at level 61, c at next level, right associativity) : result_scope.
Local Open Scope result_scope.

(** [except Exception] catches every exception of [exn]. *)
Definition catch_all (e : exn) : bool := true.

(** [try: body  except (classes): handler] *)
Definition try_except {A} (body : result A) (catches : exn -> bool)
    (handler : result A) : result A :=
  match body with
  | Ok a => Ok a
  | Raise e => if catches e then handler else Raise e
  end.

(* ===================================================================== *)
(** * Rich text: [client_utils.TextBuilder] and [make_rich] *)
(* ===================================================================== *)

(** One call on the builder: [text(t)], [link(text, url)] or
    [tag(text, tag)].  The builder is the sequence of the calls that
    returned. *)
Inductive run :=
| PlainText (text : str)
| Link (text url : str)
| Hashtag (text tag : str).

Definition TextBuilder := list run.

Definition display (r : run) : str :=
  match r with
  | PlainText t => t
  | Link t _ => t
  | Hashtag t _ => t
  end.

(** [text_builder.build_text()] *)
Definition build_text (tb : TextBuilder) : str := concat (map display tb).

(** [for x in l: s = body(s, x)], with a body that may raise: the loop
    stops at the first exception, which leaves it. *)
Fixpoint for_result {A S} (body : S -> A -> result S) (l : list A) (s : S) : result S :=
  match l with
  | [] => Ok s
  | x :: r => s' <- body s x ;; for_result body r s'
  end.

Section Builder.

(** The library's side of a call on the builder.  A call writes its text
    to the buffer encoded as UTF-8, and [link] and [tag] build a facet
    model from their second argument: either step may raise, and then
    the call raises.  Whether it does depends on the arguments of the
    call only, not on what the builder holds. *)
Variable builder_check : run -> result unit.

Definition tb_call (tb : TextBuilder) (r : run) : result TextBuilder :=
  bind (builder_check r) (fun _ => Ok (tb ++ [r])).

Definition tb_text (tb : TextBuilder) (t : str) : result TextBuilder :=
  tb_call tb (PlainText t).
Definition tb_link (tb : TextBuilder) (t url : str) : result TextBuilder :=
  tb_call tb (Link t url).
Definition tb_tag (tb : TextBuilder) (t tag : str) : result TextBuilder :=
  tb_call tb (Hashtag t tag).

(** The body of [for i, t in enumerate(tag_split)]. *)
Definition add_segment (len : nat) (tb : TextBuilder) (it : nat * str)
  : result TextBuilder :=
  let '(i, t) := it in
  let t := if Nat.eqb i (len - 1) then t ++ [NL] else t in
  if startswith t [HASH] then tb_tag tb t (strip (skipn 1 t))
  else tb_text tb t.

(** The body of [for line in lines]. *)
Definition add_line (tb : TextBuilder) (line : str) : result TextBuilder :=
  if startswith line (py "http") then
    let url := strip line in
    tb_link tb url url
  else
    let tag_split := re_split line in
    for_result (add_segment (length tag_split)) (enumerate tag_split) tb.

Definition make_rich (content : str) : result TextBuilder :=
  let lines := split NL content in
  for_result add_line lines [].

End Builder.

(* ===================================================================== *)
(** * Codecs: Latin-1 and UTF-8 *)
(* ===================================================================== *)

(** [text.encode("latin-1")]: a code point above 255 raises. *)
Fixpoint latin1_encode (s : str) : result bytes :=
  match s with
  | [] => Ok []
  | c :: r =>
      match Byte.of_N c with
      | Some b => bs <- latin1_encode r ;; Ok (b :: bs)
      | None => Raise UnicodeEncodeError
      end
  end.

(** [data.decode("latin-1")]: every byte is its own code point. *)
Definition latin1_decode (bs : bytes) : result str := Ok (map Byte.to_N bs).

Inductive errors_mode := Strict | Ignore.

Definition is_cont (n : N) : bool := in_range 128 191 n.

(** The second byte of a three-byte and of a four-byte sequence: the
    ranges that exclude overlong forms, surrogates and code points above
    U+10FFFF. *)
Definition second_ok3 (n0 n1 : N) : bool :=
  is_cont n1 && (if n0 =? 224 then 160 <=? n1 else true)
             && (if n0 =? 237 then n1 <=? 159 else true).
Definition second_ok4 (n0 n1 : N) : bool :=
  is_cont n1 && (if n0 =? 240 then 144 <=? n1 else true)
             && (if n0 =? 244 then n1 <=? 143 else true).

Definition low6 (n : N) : N := N.land n 63.

(** [data.decode("utf-8", errors=...)].  On a malformed sequence the strict
    decoder raises; with [errors="ignore"] the offending bytes (the lead
    byte and the continuation bytes accepted so far, or all that is left
    when the data ends inside a sequence) are dropped. *)
Fixpoint utf8_decode (errors : errors_mode) (bs : bytes) : result str :=
  let bad (rest : result str) :=
    match errors with Strict => Raise UnicodeDecodeError | Ignore => rest end in
  let emit (c : char) (rest : result str) := s <- rest ;; Ok (c :: s) in
  match bs with
  | [] => Ok []
  | b0 :: r0 =>
    let n0 := Byte.to_N b0 in
    if n0 <? 128 then emit n0 (utf8_decode errors r0)
    else if n0 <? 194 then bad (utf8_decode errors r0)
    else if n0 <? 224 then
      match r0 with
      | [] => bad (Ok [])
      | b1 :: r1 =>
        let n1 := Byte.to_N b1 in
        if is_cont n1
        then emit (N.lor (N.shiftl (N.land n0 31) 6) (low6 n1))
                  (utf8_decode errors r1)
        else bad (utf8_decode errors r0)
      end
    else if n0 <? 240 then
      match r0 with
      | [] => bad (Ok [])
      | b1 :: r1 =>
        let n1 := Byte.to_N b1 in
        if second_ok3 n0 n1 then
          match r1 with
          | [] => bad (Ok [])
          | b2 :: r2 =>
            let n2 := Byte.to_N b2 in
            if is_cont n2
            then emit (N.lor (N.shiftl (N.land n0 15) 12)
                         (N.lor (N.shiftl (low6 n1) 6) (low6 n2)))
                      (utf8_decode errors r2)
            else bad (utf8_decode errors r1)
          end
        else bad (utf8_decode errors r0)
      end
    else if n0 <? 245 then
      match r0 with
      | [] => bad (Ok [])
      | b1 :: r1 =>
        let n1 := Byte.to_N b1 in
        if second_ok4 n0 n1 then
          match r1 with
          | [] => bad (Ok [])
          | b2 :: r2 =>
            let n2 := Byte.to_N b2 in
            if is_cont n2 then
              match r2 with
              | [] => bad (Ok [])
              | b3 :: r3 =>
                let n3 := Byte.to_N b3 in
                if is_cont n3
                then emit (N.lor (N.shiftl (N.land n0 7) 18)
                             (N.lor (N.shiftl (low6 n1) 12)
                                (N.lor (N.shiftl (low6 n2) 6) (low6 n3))))
                          (utf8_decode errors r3)
                else bad (utf8_decode errors r2)
              end
            else bad (utf8_decode errors r1)
          end
        else bad (utf8_decode errors r0)
      end
    else bad (utf8_decode errors r0)
  end.

(* ===================================================================== *)
(** * [html.unescape] *)
(* ===================================================================== *)

(** [int(digits, base)] on a string of digits of that base. *)
Definition digit_val (c : char) : N :=
  if is_digit c then c - 48
  else if in_range 97 102 c then c - 87
  else c - 55.
Definition int_of (base : N) (ds : str) : N :=
  fold_left (fun acc d => acc * base + digit_val d) ds 0.

(** CPython refuses to convert a decimal string of more than
    [sys.int_info.default_max_str_digits] digits; bases that are powers of
    two have no limit. *)
Definition max_str_digits : nat := 4300.

(** [html._invalid_charrefs]: the replacements of numeric references the
    HTML 5 standard remaps (NUL, CR and the C1 range read as Windows-1252). *)
Definition invalid_charrefs : list (N * char) :=
  [ (0, 65533); (13, 13); (128, 8364); (129, 129); (130, 8218); (131, 402);
    (132, 8222); (133, 8230); (134, 8224); (135, 8225); (136, 710);
    (137, 8240); (138, 352); (139, 8249); (140, 338); (141, 141);
    (142, 381); (143, 143); (144, 144); (145, 8216); (146, 8217);
    (147, 8220); (148, 8221); (149, 8226); (150, 8211); (151, 8212);
    (152, 732); (153, 8482); (154, 353); (155, 8250); (156, 339);
    (157, 157); (158, 382); (159, 376) ].

Fixpoint assoc (k : N) (l : list (N * char)) : option char :=
  match l with
  | [] => None
  | (k', v) :: r => if k =? k' then Some v else assoc k r
  end.

(** [num in html._invalid_codepoints] *)
Definition invalid_codepoint (num : N) : bool :=
  in_range 1 8 num || (num =? 11) || in_range 14 31 num || in_range 127 159 num
  || in_range 64976 65007 num
  || ((N.land num 65534 =? 65534) && (num <=? 1114111)).

(** A character of a named reference: [[^\t\n\f <&#;]]. *)
Definition name_char (c : char) : bool :=
  negb ((c =? 9) || (c =? 10) || (c =? 12) || (c =? 32)
        || (c =? LT) || (c =? AMP) || (c =? HASH) || (c =? SEMI)).

(** At most [n] leading characters that satisfy [p]. *)
Fixpoint take_upto (n : nat) (p : char -> bool) (s : str) : str :=
  match n, s with
  | S n', c :: r => if p c then c :: take_upto n' p r else []
  | _, _ => []
  end.

(** The optional [;] that ends each alternative. *)
Definition opt_semi (g rest : str) : str * str :=
  match rest with
  | c :: rest' => if c =? SEMI then (g ++ [SEMI], rest') else (g, rest)
  | [] => (g, [])
  end.

(** The pattern
    [&(#[0-9]+;?|#[xX][0-9a-fA-F]+;?|[^\t\n\f <&#;]{1,32};?)] tried at the
    start of [s]: group 1 and what follows the match. *)
Definition match_charref (s : str) : option (str * str) :=
  match s with
  | c :: h :: r1 =>
      if c =? AMP then
        if h =? HASH then
          match take_while is_digit r1 with
          | (_ :: _) as ds => Some (opt_semi (h :: ds) (drop_while is_digit r1))
          | [] =>
              match r1 with
              | x :: r2 =>
                  if (x =? 120) || (x =? 88) then
                    match take_while is_hexdigit r2 with
                    | (_ :: _) as hs =>
                        Some (opt_semi (h :: x :: hs) (drop_while is_hexdigit r2))
                    | [] => None
                    end
                  else None
              | [] => None
              end
          end
        else
          match take_upto 32 name_char (h :: r1) with
          | (_ :: _) as nm => Some (opt_semi nm (skipn (length nm) (h :: r1)))
          | [] => None
          end
      else None
  | _ => None
  end.

Lemma opt_semi_length g rest :
  (length (snd (opt_semi g rest)) <= length rest)%nat.
Proof.
  destruct rest as [|c r]; simpl; [lia|]. destruct (c =? SEMI); simpl; lia.
Qed.

Lemma drop_while_length p s : (length (drop_while p s) <= length s)%nat.
Proof.
  induction s as [|c r IH]; simpl; [lia|]. destruct (p c); simpl; lia.
Qed.

Lemma match_charref_shorter s g rest :
  match_charref s = Some (g, rest) -> (length rest < length s)%nat.
Proof.
  assert (Hsemi : forall g0 rest0 n,
             (length rest0 <= n)%nat ->
             Some (opt_semi g0 rest0) = Some (g, rest) -> (length rest < S (S n))%nat).
  { intros g0 rest0 n Hn [= E]. pose proof (opt_semi_length g0 rest0) as L.
    rewrite E in L. simpl in L. lia. }
  destruct s as [|c [|h r1]]; try discriminate.
  unfold match_charref. cbn [length].
  destruct (c =? AMP); [|discriminate].
  destruct (h =? HASH).
  - destruct (take_while is_digit r1).
    + destruct r1 as [|x r2]; [discriminate|].
      destruct ((x =? 120) || (x =? 88)); [|discriminate].
      destruct (take_while is_hexdigit r2); [discriminate|].
      apply Hsemi. pose proof (drop_while_length is_hexdigit r2). cbn [length]. lia.
    + apply Hsemi. apply drop_while_length.
  - destruct (take_upto 32 name_char (h :: r1)) as [|c0 nm] eqn:En; [discriminate|].
    apply Hsemi. pose proof (length_skipn (length (c0 :: nm)) (h :: r1)) as L.
    cbn [length] in L |- *. lia.
Qed.

Section Sanitizer.

(** [html.entities.html5]: the table of named references, from a name
    (with its [;] when the table has it) to its replacement text. *)
Variable html5 : str -> option str.

(** [BeautifulSoup(title, "html.parser", from_encoding="utf-8").get_text()] *)
Variable bs_get_text : str -> result str.

(** The loop [for x in range(len(s)-1, 1, -1)] of [_replace_charref]:
    the longest proper prefix of [s], of two characters at least, that
    the table knows. *)
Fixpoint longest_name (x : nat) (s : str) : option str :=
  match x with
  | S x' =>
      if Nat.ltb x 2 then None
      else match html5 (firstn x s) with
           | Some v => Some (v ++ skipn x s)
           | None => longest_name x' s
           end
  | O => None
  end.

(** [html._replace_charref] on group 1 of a match. *)
Definition replace_charref (s : str) : result str :=
  match s with
  | [] => Raise IndexError
  | s0 :: s1 =>
      if s0 =? HASH then
        num <- match s1 with
               | [] => Raise IndexError
               | x :: s2 =>
                   if (x =? 120) || (x =? 88)
                   then Ok (int_of 16 (rstrip_char SEMI s2))
                   else
                     let ds := rstrip_char SEMI s1 in
                     if Nat.ltb max_str_digits (length ds) then Raise ValueError
                     else Ok (int_of 10 ds)
               end ;;
        match assoc num invalid_charrefs with
        | Some c => Ok [c]
        | None =>
            if in_range 55296 57343 num || (1114111 <? num) then Ok [65533]
            else if invalid_codepoint num then Ok []
            else Ok [num]
        end
      else
        match html5 s with
        | Some v => Ok v
        | None =>
            match longest_name (length s - 1) s with
            | Some v => Ok v
            | None => Ok (AMP :: s)
            end
        end
  end.

(** [_charref.sub(_replace_charref, s)]: every match, leftmost first, is
    replaced; the text between the matches is kept. *)
Equations? charref_sub (s : str) : result str by wf (length s) lt :=
  charref_sub [] := Ok [];
  charref_sub (c :: r) with inspect (match_charref (c :: r)) := {
    | exist _ (Some (g, rest)) e :=
        bind (replace_charref g) (fun rep =>
        bind (charref_sub rest) (fun tl => Ok (rep ++ tl)));
    | exist _ None _ :=
        bind (charref_sub r) (fun tl => Ok (c :: tl)) }.
Proof. exact (@match_charref_shorter (c :: r) g rest e). Qed.

(** [html.unescape] *)
Definition unescape (s : str) : result str :=
  if negb (existsb (N.eqb AMP) s) then Ok s else charref_sub s.

(* =================================================================== *)
(** * The title sanitizer *)
(* =================================================================== *)

Definition fix_encoding (text : str) : result str :=
  try_except
    (b <- latin1_encode text ;; utf8_decode Strict b)
    (fun e => isinstance_UnicodeEncodeError e || isinstance_UnicodeDecodeError e)
    (Ok text).

Definition desescapar_unicode (text : str) : str :=
  match unescape text with
  | Ok t => t
  | Raise e => text          (* [except Exception] *)
  end.

(** The rest of [.*?>] after a [<]: a [>] before the next newline. *)
Fixpoint closes_tag (s : str) : bool :=
  match s with
  | [] => false
  | c :: r => if c =? GT then true else if c =? NL then false else closes_tag r
  end.

(** [bool(re.search(r'<.*?>', text))] *)
Fixpoint is_html (text : str) : bool :=
  match text with
  | [] => false
  | c :: r => ((c =? LT) && closes_tag r) || is_html r
  end.

(** The [try] block of [process_title]. *)
Definition process_title_body (title : str) : result str :=
  title_text <- (if is_html title
                 then t <- bs_get_text title ;; Ok (strip t)
                 else Ok (strip title)) ;;
  let title_text := desescapar_unicode title_text in
  title_text <- fix_encoding title_text ;;
  Ok title_text.

Definition process_title (title : str) : str :=
  match process_title_body title with
  | Ok title_text => title_text
  | Raise e => title         (* [except Exception] *)
  end.

End Sanitizer.

(* ===================================================================== *)
(** * Data of the pipeline *)
(* ===================================================================== *)

(** A point in time, in microseconds since the epoch: what [arrow.get]
    returns.  [arrow.get(0)] is the epoch itself; earlier instants are
    negative. *)
Definition timestamp := Z.
Definition epoch : timestamp := 0%Z.

(** An entry of [feed.entries], through the three reads the loop makes
    of it: [item.title], [item.link] and [arrow.get(item.published)].  A
    read raises when the entry lacks the attribute and, for [published],
    when [arrow.get] cannot read its value as a time. *)
Record FeedEntry := {
  title : result str;
  link : result str;
  published : result timestamp
}.

Inductive Reason := ReasonRepost | ReasonPin.
Record ReplyRef := { reply_parent : str; reply_root : str }.

(** An item of [timeline.feed]: [titem.reason], and of
    [titem.post.record] the fields [reply] and [created_at]. *)
Record FeedViewPost := {
  reason : option Reason;
  reply : option ReplyRef;
  created_at : timestamp
}.

(** An [httpx.Response]. *)
Record Response := {
  status_code : Z;
  text : str;
  content : bytes
}.

(** A tag of the parsed page: its [content] attribute, when it has one,
    and its text. *)
Record Tag := {
  tag_content : option str;
  tag_text : str
}.

Inductive selector :=
| MetaProperty (property : str)     (* [find("meta", property=...)] *)
| MetaName (name : str)             (* [find("meta", attrs={"name": ...})] *)
| TagNamed (name : str).            (* [find(name)] *)

(** The dict [fetch_link_metadata] returns, read through [.get]: a key
    that is missing and a key bound to [None] both read as [None]. *)
Record LinkMetadata := {
  meta_title : option str;
  meta_description : option str;
  meta_image : option str
}.
Definition empty_metadata : LinkMetadata :=
  {| meta_title := None; meta_description := None; meta_image := None |}.

Definition BlobRef := str.

(** [models.AppBskyEmbedImages.Image] *)
Record Image := { alt : str; image : BlobRef }.

(** [models.AppBskyEmbedExternal.External] *)
Record External := {
  uri : str;
  external_title : str;
  external_description : str;
  thumb : option BlobRef
}.

Inductive Embed :=
| EmbedImages (images : list Image)       (* [AppBskyEmbedImages.Main] *)
| EmbedExternal (external : External).    (* [AppBskyEmbedExternal.Main] *)

(** What [charset_normalizer.from_bytes(...).best()] returns when it is
    not [None]: the object and its [text] attribute, if it has one. *)
Record CharsetMatch := { cm_text : option str }.

(** Truth value of an optional string: [None] and [""] are false. *)
Definition truthy (o : option str) : bool :=
  match o with
  | Some (_ :: _) => true
  | _ => false
  end.

(** [o or default] *)
Definition or_else (o : option str) (default : str) : str :=
  if truthy o then match o with Some s => s | None => default end else default.

(* ===================================================================== *)
(** * The collaborators and the history of calls *)
(* ===================================================================== *)

(** A call the script makes on a collaborator. *)
Inductive event :=
| EvLogin (username password : str) (ok : bool)    (* [client.login] *)
| EvSleep (seconds : Z)                            (* [time.sleep] *)
| EvGetAuthorFeed (handle : str)                   (* [client.get_author_feed] *)
| EvHttpGet (url : str)                            (* [httpx.get] *)
| EvUploadBlob (data : bytes)                      (* [client.upload_blob] *)
| EvSendPost (text : TextBuilder) (embed : option Embed).  (* [client.send_post] *)

(** The calls made so far, oldest first. *)
Definition history := list event.

(** A computation that calls collaborators: from the history before it
    to its outcome and the history after it. *)
Definition M (A : Type) := history -> result A * history.

Definition ret {A} (a : A) : M A := fun h => (Ok a, h).
Definition lift {A} (r : result A) : M A := fun h => (r, h).
Definition bindM {A B} (c : M A) (k : A -> M B) : M B :=
  fun h => match c h with
           | (Ok a, h') => k a h'
           | (Raise e, h') => (Raise e, h')
           end.

Declare Scope driver_scope.
Delimit Scope driver_scope with driver.
Notation "x <~ c ;; k" := (bindM c (fun x => k))
  (at level 61, c at next level, right associativity) : driver_scope.
Notation "c ;;; k" := (bindM c (fun _ => k))
  (at level 61, right associativity) : driver_scope.
Local Open Scope driver_scope.

(** [try: body  except (classes): handler], the handler running after
    the calls the body made before it raised. *)
Definition try_exceptM {A} (body : M A) (catches : exn -> bool) (handler : M A) : M A :=
  fun h => match body h with
           | (Ok a, h') => (Ok a, h')
           | (Raise e, h') => if catches e then handler h' else (Raise e, h')
           end.

(** [for x in l: body(x)] *)
Fixpoint for_each {A} (body : A -> M unit) (l : list A) : M unit :=
  match l with
  | [] => ret tt
  | x :: r => body x ;;; for_each body r
  end.

Definition is_ok {A} (r : result A) : bool :=
  match r with Ok _ => true | Raise _ => false end.

Definition is_none {A} (o : option A) : bool :=
  match o with None => true | Some _ => false end.

(** The loop of [get_last_bsky] over [timeline.feed]. *)
Fixpoint last_top_level (feed : list FeedViewPost) : timestamp :=
  match feed with
  | [] => epoch
  | titem :: rest =>
      if is_none (reason titem) && is_none (reply titem)
      then created_at titem
      else last_top_level rest
  end.

(** The delay after the one of [backoff] seconds: [min(backoff + 60, 600)]. *)
Definition next_backoff (backoff : Z) : Z := Z.min (backoff + 60) 600.

(** Lines 147-159 of [main]: the feed's bytes as text. *)
Definition decode_feed (charset_best : bytes -> option CharsetMatch)
    (response_content : bytes) : result str :=
  try_except
    (let result := charset_best response_content in
     match result with
     | None => Raise ValueError
     | Some m =>
         match cm_text m with
         | None => Raise ValueError
         | Some t => Ok t
         end
     end)
    isinstance_ValueError
    (try_except (latin1_decode response_content)
       isinstance_UnicodeDecodeError
       (utf8_decode Ignore response_content)).

(* ===================================================================== *)
(** * The driver *)
(* ===================================================================== *)

Section Driver.

(** Libraries that compute: the entity table and the HTML parser of the
    sanitizer, the page parser, the charset detector, the feed parser. *)
Variable html5 : str -> option str.
Variable bs_get_text : str -> result str.
Variable Soup : Type.
Variable BeautifulSoup : str -> result Soup.
Variable soup_find : Soup -> selector -> option Tag.
Variable charset_best : bytes -> option CharsetMatch.
Variable fastfeedparser_parse : str -> result (list FeedEntry).
Variable raise_for_status : Response -> result unit.
Variable builder_check : run -> result unit.

(** Remote collaborators: each answers from the calls made before. *)
Variable client_login : history -> str -> str -> result unit.
Variable client_get_author_feed : history -> str -> result (list FeedViewPost).
Variable client_upload_blob : history -> bytes -> result BlobRef.
Variable client_send_post : history -> TextBuilder -> option Embed -> result unit.
Variable httpx_get : history -> str -> result Response.

Definition login (username password : str) : M unit :=
  fun h => let r := client_login h username password in
           (r, h ++ [EvLogin username password (is_ok r)]).
Definition sleep (seconds : Z) : M unit :=
  fun h => (Ok tt, h ++ [EvSleep seconds]).
Definition get_author_feed (handle : str) : M (list FeedViewPost) :=
  fun h => (client_get_author_feed h handle, h ++ [EvGetAuthorFeed handle]).
Definition http_get (url : str) : M Response :=
  fun h => (httpx_get h url, h ++ [EvHttpGet url]).
Definition upload_blob (data : bytes) : M BlobRef :=
  fun h => (client_upload_blob h data, h ++ [EvUploadBlob data]).
Definition send_post (rich_text : TextBuilder) (embed : option Embed) : M unit :=
  fun h => (client_send_post h rich_text embed, h ++ [EvSendPost rich_text embed]).

(** [a or b] on the tags [soup.find] returns: a tag is always true. *)
Definition or_tag (a b : option Tag) : option Tag :=
  match a with Some _ => a | None => b end.

Definition fetch_link_metadata_body (url : str) : M LinkMetadata :=
  r <~ http_get url ;;
  lift (raise_for_status r) ;;;
  soup <~ lift (BeautifulSoup (text r)) ;;
  let title := or_tag (soup_find soup (MetaProperty (py "og:title")))
                      (soup_find soup (TagNamed (py "title"))) in
  let desc := or_tag (soup_find soup (MetaProperty (py "og:description")))
                     (soup_find soup (MetaName (py "description"))) in
  let image := or_tag (soup_find soup (MetaProperty (py "og:image")))
                      (soup_find soup (MetaName (py "twitter:image"))) in
  ret {| meta_title :=
           Some match title with
                | Some t => match tag_content t with
                            | Some c => c
                            | None => tag_text t
                            end
                | None => []
                end;
         meta_description :=
           Some match desc with
                | Some t => match tag_content t with Some c => c | None => [] end
                | None => []
                end;
         meta_image :=
           match image with
           | Some t => tag_content t
           | None => None
           end |}.

Definition fetch_link_metadata (url : str) : M LinkMetadata :=
  try_exceptM (fetch_link_metadata_body url) catch_all (ret empty_metadata).

Definition get_last_bsky (handle : str) : M timestamp :=
  timeline <~ get_author_feed handle ;;
  ret (last_top_level timeline).

Definition get_image_from_url (image_url : str) (alt_text : str) : M (option Image) :=
  try_exceptM
    (r <~ http_get image_url ;;
     if negb (status_code r =? 200)%Z then ret None
     else
       img_blob <~ upload_blob (content r) ;;
       ret (Some {| alt := alt_text; image := img_blob |}))
    catch_all
    (ret None).

(** Lines 177-207 of [main]: the embed of an entry that is posted,
    [item_link] being what [item.link] reads. *)
Definition compose_embed (title_text : str) (item_link : str) : M (option Embed) :=
  link_metadata <~ fetch_link_metadata item_link ;;
  images <~ match meta_image link_metadata with
            | Some ((_ :: _) as image_url) =>
                let alt_text :=
                  or_else (Some title_text)
                    (or_else (meta_title link_metadata) (py "Preview image")) in
                img <~ get_image_from_url image_url alt_text ;;
                ret (match img with Some i => [i] | None => [] end)
            | _ => ret []         (* [link_metadata.get("image")] is false *)
            end ;;
  let external_embed :=
    if truthy (meta_title link_metadata) || truthy (meta_description link_metadata)
    then Some (EmbedExternal
                 {| uri := item_link;
                    external_title := or_else (meta_title link_metadata) (py "Link");
                    external_description := or_else (meta_description link_metadata) [];
                    thumb := None |})
    else None in
  ret (match images with
       | _ :: _ => Some (EmbedImages images)
       | [] => external_embed
       end).

(** The body of [for item in feed.entries].  The reads of the entry and
    [make_rich] come before the comparison of the times and stand in no
    [try]: an exception of theirs leaves the loop. *)
Definition process_item (last_bsky : timestamp) (item : FeedEntry) : M unit :=
  rss_time <~ lift (published item) ;;
  item_title <~ lift (title item) ;;
  let title_text := process_title html5 bs_get_text item_title in
  item_link <~ lift (link item) ;;
  let post_text := title_text ++ [NL] ++ item_link in
  rich_text <~ lift (make_rich builder_check post_text) ;;
  if (last_bsky <? rss_time)%Z then
    embed <~ compose_embed title_text item_link ;;
    try_exceptM (send_post rich_text embed) catch_all (ret tt)
  else ret tt.

(** The login loop, run for at most [fuel] attempts: [true] when it
    left the loop through [break], [false] when every attempt so far
    failed (the loop is still running). *)
Fixpoint login_loop (fuel : nat) (username password : str) (backoff : Z) : M bool :=
  match fuel with
  | O => ret false
  | S fuel' =>
      try_exceptM
        (login username password ;;; ret true)
        catch_all
        (sleep backoff ;;;
         login_loop fuel' username password (next_backoff backoff))
  end.

(** [main], with the arguments the command line gives it; [false] when
    the login loop has not ended within [fuel] attempts. *)
Definition main (fuel : nat)
    (feed_url bsky_handle bsky_username bsky_password : str) : M bool :=
  logged_in <~ login_loop fuel bsky_username bsky_password 60 ;;
  if logged_in then
    last_bsky <~ get_last_bsky bsky_handle ;;
    response <~ http_get feed_url ;;
    lift (raise_for_status response) ;;;
    feed_content <~ lift (decode_feed charset_best (content response)) ;;
    entries <~ lift (fastfeedparser_parse feed_content) ;;
    for_each (process_item last_bsky) entries ;;;
    ret true
  else ret false.

(** ** Notions the properties of the driver are stated with *)

(** The image behind [url] was fetched with status 200 and uploaded as
    [blob], the fetch being made after the calls of [h]. *)
Definition image_uploaded (h : history) (url : str) (blob : BlobRef) : Prop :=
  exists r, httpx_get h url = Ok r /\ status_code r = 200%Z /\
            client_upload_blob (h ++ [EvHttpGet url]) (content r) = Ok blob.

(** The [try] block of [fetch_link_metadata] raises. *)
Definition fetch_fails (h : history) (url : str) (e : exn) : Prop :=
  httpx_get h url = Raise e \/
  (exists r, httpx_get h url = Ok r /\ raise_for_status r = Raise e) \/
  (exists r, httpx_get h url = Ok r /\ raise_for_status r = Ok tt /\
             BeautifulSoup (text r) = Raise e).

(** The preview image named by the metadata was fetched and uploaded. *)
Definition preview_uploaded (h : history) (md : LinkMetadata) (blob : BlobRef) : Prop :=
  exists url, meta_image md = Some url /\ url <> [] /\ image_uploaded h url blob.

(** What the loop body computes of an entry before it compares the
    times (lines 164-171): the time of the entry, the sanitized title,
    the link and the rich text; or the first exception met. *)
Definition read_item (item : FeedEntry) : result (timestamp * str * str * TextBuilder) :=
  (rss_time <- published item ;;
   item_title <- title item ;;
   item_link <- link item ;;
   let title_text := process_title html5 bs_get_text item_title in
   rich_text <- make_rich builder_check (title_text ++ [NL] ++ item_link) ;;
   Ok (rss_time, title_text, item_link, rich_text))%result.

(** The rich texts the loop submits for a list of entries that all read:
    those of the entries published after the marker, in feed order. *)
Definition texts_due (last_bsky : timestamp) (entries : list FeedEntry)
  : list TextBuilder :=
  flat_map (fun item =>
              match read_item item with
              | Ok (rss_time, _, _, rich_text) =>
                  if (last_bsky <? rss_time)%Z then [rich_text] else []
              | Raise _ => []
              end) entries.

End Driver.

(* ===================================================================== *)
(** * Notions the properties are stated with *)
(* ===================================================================== *)

(** The call one segment of the hashtag split makes on the builder. *)
Definition segment_run (len : nat) (it : nat * str) : run :=
  let '(i, t) := it in
  let t := if Nat.eqb i (len - 1) then t ++ [NL] else t in
  if startswith t [HASH] then Hashtag t (strip (skipn 1 t)) else PlainText t.

(** The calls one line of the body makes on the builder, in order. *)
Definition line_runs (line : str) : list run :=
  if startswith line (py "http") then [Link (strip line) (strip line)]
  else map (segment_run (length (re_split line))) (enumerate (re_split line)).

(** The calls [make_rich] makes on the builder for a body, in order, when
    none of them raises. *)
Definition rich_runs (content : str) : list run :=
  flat_map line_runs (split NL content).

(** The builder after a sequence of calls, or the exception of the first
    call that raises. *)
Fixpoint run_calls (builder_check : run -> result unit) (tb : TextBuilder)
    (calls : list run) : result TextBuilder :=
  match calls with
  | [] => Ok tb
  | r :: rest => bind (tb_call builder_check tb r)
                      (fun tb' => run_calls builder_check tb' rest)
  end.

(** The library accepts every call of a sequence. *)
Definition accepted (builder_check : run -> result unit) (calls : list run) : Prop :=
  forall r, In r calls -> builder_check r = Ok tt.

(** A text UTF-8 can encode: it holds no surrogate code point. *)
Definition encodable (s : str) : bool :=
  forallb (fun c => (c <? 55296) || ((57343 <? c) && (c <=? 1114111))) s.

(** A builder whose calls encode their text as UTF-8: a call raises
    [UnicodeEncodeError] when its text holds a surrogate code point, and
    returns otherwise. *)
Definition utf8_builder (r : run) : result unit :=
  if encodable (display r) then Ok tt else Raise UnicodeEncodeError.

(** An optional string that is a non-empty string: what Python takes
    for true. *)
Definition non_empty (o : option str) : Prop :=
  exists s, o = Some s /\ s <> [].

(** A text the hashtag pattern matches in full: [#] and one alphanumeric
    character at least. *)
Definition is_tag (m : str) : bool :=
  match m with
  | c :: t => (c =? HASH) && negb (Nat.eqb (length t) 0) && forallb is_alnum t
  | [] => false
  end.

Definition is_ascii (s : str) : bool := forallb (fun c => c <? 128) s.

(** The delay slept after the failed attempt number [k] (from 0). *)
Definition delay (k : nat) : Z := Z.min (60 * (Z.of_nat k + 1)) 600.

(** The texts submitted by the [send_post] calls of a history. *)
Definition sent_texts (h : history) : list TextBuilder :=
  flat_map (fun e => match e with EvSendPost t _ => [t] | _ => [] end) h.

Definition is_send_post (e : event) : bool :=
  match e with EvSendPost _ _ => true | _ => false end.

(** The calls of [n] failed login attempts in a row: each attempt and
    the sleep that follows it. *)
Definition failed_attempts (username password : str) (n : nat) : list event :=
  flat_map (fun k => [EvLogin username password false; EvSleep (delay k)]) (seq 0 n).

(** The link card built from the metadata, when it has a title or a
    description. *)
Definition link_card (item_link : str) (md : LinkMetadata) : option Embed :=
  if truthy (meta_title md) || truthy (meta_description md)
  then Some (EmbedExternal
               {| uri := item_link;
                  external_title := or_else (meta_title md) (py "Link");
                  external_description := or_else (meta_description md) [];
                  thumb := None |})
  else None.

(** A computation only adds calls to the history. *)
Definition extends {A} (c : M A) : Prop :=
  forall h, exists r evs, c h = (r, h ++ evs).


(* ===================================================================== *)
(** * A run of [main] in a small world *)
(* ===================================================================== *)

Module Scenario.

(** The login fails twice and then succeeds; the account's feed holds a
    repost, a reply and then a top-level post made at time 100; the feed
    URL answers, every other URL is unreachable; the feed has an entry
    older and an entry newer than the marker. *)
Definition feed_url : str := py "http://feed.test/rss".

Definition logins (h : history) : nat :=
  length (filter (fun e => match e with EvLogin _ _ _ => true | _ => false end) h).

Definition client_login (h : history) (u p : str) : result unit :=
  if Nat.ltb (logins h) 2 then Raise RemoteError else Ok tt.

Definition client_get_author_feed (h : history) (handle : str)
  : result (list FeedViewPost) :=
  Ok [ {| reason := Some ReasonRepost; reply := None; created_at := 300 |};
       {| reason := None;
          reply := Some {| reply_parent := py "p"; reply_root := py "r" |};
          created_at := 200 |};
       {| reason := None; reply := None; created_at := 100 |};
       {| reason := None; reply := None; created_at := 90 |} ]%Z.

Definition httpx_get (h : history) (url : str) : result Response :=
  if list_eq_dec N.eq_dec url feed_url
  then Ok {| status_code := 200; text := []; content := [] |}
  else Raise HTTPError.

Definition raise_for_status (r : Response) : result unit :=
  if (status_code r =? 200)%Z then Ok tt else Raise HTTPError.

Definition entries : list FeedEntry :=
  [ {| title := Ok (py "Old &amp; gone"); link := Ok (py "http://x.test/old");
       published := Ok 50%Z |};
    {| title := Ok (py " New #post "); link := Ok (py "http://x.test/new");
       published := Ok 150%Z |} ].

Definition html5 (name : str) : option str :=
  if list_eq_dec N.eq_dec name (py "amp;") then Some (py "&") else None.

Definition run : result bool * history :=
  main html5 (fun t => Ok t) (fun _ => Ok tt) (fun _ _ => None) (fun _ => None)
    (fun _ => Ok entries) raise_for_status utf8_builder client_login
    client_get_author_feed
    (fun _ _ => Raise RemoteError) (fun _ _ _ => Ok tt) httpx_get
    5 feed_url (py "me.test") (py "me") (py "secret") [].

End Scenario.

Module Preview.

(** Every page answers and carries Open Graph tags for a title and an
    image; the image is served with the status [image_status], and the
    upload is accepted. *)
Definition soup_find (_ : unit) (sel : selector) : option Tag :=
  match sel with
  | MetaProperty p =>
      if list_eq_dec N.eq_dec p (py "og:title")
      then Some {| tag_content := Some (py "Page"); tag_text := [] |}
      else if list_eq_dec N.eq_dec p (py "og:image")
      then Some {| tag_content := Some (py "http://x.test/i.png"); tag_text := [] |}
      else None
  | _ => None
  end.

Definition httpx_get (image_status : Z) (h : history) (url : str) : result Response :=
  if list_eq_dec N.eq_dec url (py "http://x.test/i.png")
  then Ok {| status_code := image_status; text := []; content := [] |}
  else Ok {| status_code := 200%Z; text := []; content := [] |}.

Definition item : FeedEntry :=
  {| title := Ok (py "New"); link := Ok (py "http://x.test/new");
     published := Ok 150%Z |}.

Definition embed_of (image_status : Z) : result (option Embed) * history :=
  compose_embed (fun _ => Ok tt) soup_find (fun _ => Ok tt)
    (fun _ _ => Ok (py "blob")) (httpx_get image_status) (py "New")
    (py "http://x.test/new") [].

End Preview.

(* ===================================================================== *)
(** * Strings: facts about [strip], [split] and the hashtag split *)
(* ===================================================================== *)

Lemma drop_while_incl p s x : In x (drop_while p s) -> In x s.
Proof.
  induction s as [|c r IH]; simpl; [tauto|].
  destruct (p c); simpl; intuition.
Qed.

Lemma strip_incl s x : In x (strip s) -> In x s.
Proof.
  unfold strip, lstrip, rstrip. intros H.
  apply drop_while_incl in H. apply in_rev in H.
  apply drop_while_incl in H. now apply in_rev in H.
Qed.

Lemma rstrip_app_space s c : isspace c = true -> rstrip (s ++ [c]) = rstrip s.
Proof.
  intros Hc. unfold rstrip. rewrite rev_app_distr. simpl. now rewrite Hc.
Qed.

Lemma strip_app_space s c : isspace c = true -> strip (s ++ [c]) = strip s.
Proof. intros Hc. unfold strip. now rewrite rstrip_app_space. Qed.

Lemma drop_while_fixed p s :
  drop_while p s = s <-> match s with [] => True | c :: _ => p c = false end.
Proof.
  destruct s as [|c r]; simpl; [tauto|].
  destruct (p c) eqn:E; split; try tauto; try discriminate.
  intros H. pose proof (drop_while_length p r) as L. rewrite H in L.
  simpl in L. lia.
Qed.

Lemma drop_while_idem p s : drop_while p (drop_while p s) = drop_while p s.
Proof.
  induction s as [|c r IH]; simpl; [reflexivity|].
  destruct (p c) eqn:E; [exact IH|]. simpl. now rewrite E.
Qed.

Lemma take_while_all p s : forallb p (take_while p s) = true.
Proof.
  induction s as [|c r IH]; simpl; [reflexivity|].
  destruct (p c) eqn:E; simpl; [now rewrite E | reflexivity].
Qed.

(** A string that neither starts nor ends with whitespace is its own
    [strip]. *)
Lemma strip_clean s :
  drop_while isspace s = s -> drop_while isspace (rev s) = rev s -> strip s = s.
Proof.
  intros H1 H2. unfold strip, lstrip, rstrip. now rewrite H2, rev_involutive.
Qed.

Lemma strip_idem s : strip (strip s) = strip s.
Proof.
  apply strip_clean.
  - unfold strip, lstrip. apply drop_while_idem.
  - unfold strip, lstrip, rstrip.
    set (y := rev (drop_while isspace (rev s))).
    assert (Hy : drop_while isspace (rev y) = rev y).
    { unfold y. rewrite rev_involutive. apply drop_while_idem. }
    pose proof (take_drop_while isspace y) as E.
    destruct (drop_while isspace y) as [|c r] eqn:D; [reflexivity|].
    apply drop_while_fixed.
    rewrite <- E, rev_app_distr in Hy.
    apply drop_while_fixed in Hy.
    destruct (rev (c :: r)) as [|c' r'] eqn:R.
    + apply (f_equal (@length _)) in R. rewrite length_rev in R. discriminate.
    + exact Hy.
Qed.

Lemma split_nonempty sep s : split sep s <> [].
Proof.
  destruct s as [|c r]; simpl; [discriminate|].
  destruct (c =? sep); [discriminate|].
  destruct (split sep r); discriminate.
Qed.

Lemma split_no_sep sep s l : In l (split sep s) -> ~ In sep l.
Proof.
  revert l; induction s as [|c r IH]; simpl; intros l.
  - intros [<-|[]]. tauto.
  - destruct (c =? sep) eqn:E.
    + intros [<-|H]; [tauto | now apply IH].
    + destruct (split sep r) as [|l0 ls] eqn:S.
      * intros [<-|[]]. simpl. intros [->|[]]. now rewrite N.eqb_refl in E.
      * intros [<-|H].
        -- simpl. intros [->|H]; [now rewrite N.eqb_refl in E|].
           apply (IH l0); simpl; auto.
        -- apply IH. simpl. auto.
Qed.

Lemma join_split sep s : join sep (split sep s) = s.
Proof.
  induction s as [|c r IH]; simpl; [reflexivity|].
  pose proof (@split_nonempty sep r) as NE.
  destruct (c =? sep) eqn:E.
  - apply N.eqb_eq in E. subst c.
    destruct (split sep r) as [|l ls]; [congruence|].
    simpl in *. now rewrite IH.
  - destruct (split sep r) as [|l ls]; [congruence|].
    destruct ls; simpl in *; now rewrite <- IH.
Qed.

(** Every line followed by a newline: the body and one more newline. *)
Lemma concat_lines sep parts :
  parts <> [] -> concat (map (fun l => l ++ [sep]) parts) = join sep parts ++ [sep].
Proof.
  induction parts as [|p ps IH]; [congruence|]. intros _.
  destruct ps as [|q qs].
  - simpl. now rewrite app_nil_r.
  - change (concat (map (fun l => l ++ [sep]) (p :: q :: qs)))
      with ((p ++ [sep]) ++ concat (map (fun l => l ++ [sep]) (q :: qs))).
    rewrite IH by discriminate.
    change (join sep (p :: q :: qs)) with (p ++ sep :: join sep (q :: qs)).
    rewrite <- !app_assoc. reflexivity.
Qed.

Lemma re_split_concat s : concat (re_split s) = s.
Proof.
  funelim (re_split s).
  - simpl. rewrite H. symmetry. now apply search_tag_app.
  - simpl. apply app_nil_r.
Qed.

Lemma re_split_nonempty s : re_split s <> [].
Proof. funelim (re_split s); discriminate. Qed.

Ltac bool_to_prop :=
  repeat match goal with
         | H : _ && _ = true |- _ => apply andb_true_iff in H; destruct H
         | H : _ || _ = true |- _ => apply orb_true_iff in H; destruct H
         | H : negb _ = true |- _ => apply negb_true_iff in H
         | H : (_ <=? _) = true |- _ => apply N.leb_le in H
         | H : (_ <? _) = true |- _ => apply N.ltb_lt in H
         | H : (_ =? _) = true |- _ => apply N.eqb_eq in H
         | H : (_ =? _) = false |- _ => apply N.eqb_neq in H
         end.

Lemma alnum_not_space c : is_alnum c = true -> isspace c = false.
Proof.
  intros H. destruct (isspace c) eqn:E; [exfalso | reflexivity].
  unfold is_alnum, isspace, in_range in *. bool_to_prop; lia.
Qed.

Lemma strip_alnum t : forallb is_alnum t = true -> strip t = t.
Proof.
  intros H. apply strip_clean; apply drop_while_fixed.
  - destruct t as [|c r]; [exact I|]. simpl in H.
    apply andb_true_iff in H. now apply alnum_not_space.
  - destruct (rev t) as [|c r] eqn:R; [exact I|].
    apply alnum_not_space. rewrite forallb_forall in H. apply H.
    apply in_rev. rewrite R. now left.
Qed.

Lemma match_tag_is_tag s m post : match_tag s = Some (m, post) -> is_tag m = true.
Proof.
  destruct s as [|c r]; simpl; [discriminate|].
  destruct (c =? HASH) eqn:E; [|discriminate].
  pose proof (take_while_all is_alnum r) as A.
  destruct (take_while is_alnum r) as [|a t]; [discriminate|].
  intros [= <- _]. unfold is_tag. now rewrite E, A.
Qed.

Lemma search_tag_is_tag s pre m post :
  search_tag s = Some (pre, m, post) -> is_tag m = true.
Proof.
  revert pre; induction s as [|c r IH]; intros pre.
  - discriminate.
  - rewrite search_tag_cons.
    destruct (match_tag (c :: r)) as [[m' post']|] eqn:E.
    + intros [= _ <- _]. eapply match_tag_is_tag; eauto.
    + destruct (search_tag r) as [[[pre' m'] post']|] eqn:S; [|discriminate].
      intros [= _ <- <-]. eapply IH; eauto.
Qed.

(** [re.split] with a capturing group alternates text and matches and
    ends with text: an odd number of segments, a match at every odd
    index. *)
Lemma re_split_shape s :
  Nat.odd (length (re_split s)) = true /\
  forall i m, nth_error (re_split s) i = Some m -> Nat.odd i = true -> is_tag m = true.
Proof.
  funelim (re_split s).
  - destruct H as [Hlen Hodd]. split.
    + exact Hlen.
    + intros [|[|i]] x Hx Hi; simpl in Hx.
      * discriminate.
      * injection Hx as <-. eapply search_tag_is_tag; eauto.
      * apply (Hodd i); assumption.
  - split; [reflexivity|].
    intros [|[|i]] x Hx Hi; simpl in Hx; discriminate.
Qed.

Lemma is_tag_inv m :
  is_tag m = true ->
  exists tag, m = HASH :: tag /\ tag <> [] /\ forallb is_alnum tag = true.
Proof.
  destruct m as [|c t]; simpl; [discriminate|]. intros H.
  apply andb_true_iff in H. destruct H as [H Ht].
  apply andb_true_iff in H. destruct H as [Hc Hn].
  apply N.eqb_eq in Hc. subst c. exists t. repeat split; auto.
  intros ->. discriminate.
Qed.

(* ===================================================================== *)
(** * The tokenizer: what [make_rich] builds *)
(* ===================================================================== *)

Lemma bind_ok {A} (c : result A) : bind c (fun a => Ok a) = c.
Proof. now destruct c. Qed.

Lemma bind_assoc {A B C} (c : result A) (f : A -> result B) (g : B -> result C) :
  bind (bind c f) g = bind c (fun a => bind (f a) g).
Proof. now destruct c. Qed.

Lemma add_segment_run bc len tb it :
  add_segment bc len tb it = tb_call bc tb (segment_run len it).
Proof.
  destruct it as [i t]. unfold add_segment, segment_run, tb_tag, tb_text.
  destruct (startswith _ [HASH]); reflexivity.
Qed.

Lemma for_add_segment bc len l tb :
  for_result (add_segment bc len) l tb = run_calls bc tb (map (segment_run len) l).
Proof.
  revert tb; induction l as [|it l IH]; intros tb; cbn [for_result map run_calls].
  - reflexivity.
  - rewrite add_segment_run. destruct (tb_call bc tb (segment_run len it)); cbn [bind].
    + apply IH.
    + reflexivity.
Qed.

Lemma line_runs_url line :
  startswith line (py "http") = true -> line_runs line = [Link (strip line) (strip line)].
Proof. intros H. unfold line_runs. now rewrite H. Qed.

Lemma line_runs_text line :
  startswith line (py "http") = false ->
  line_runs line =
  map (segment_run (length (re_split line))) (enumerate (re_split line)).
Proof. intros H. unfold line_runs. now rewrite H. Qed.

(** A line makes the calls of [line_runs], in order, up to the first
    that raises. *)
Lemma add_line_calls bc tb line :
  add_line bc tb line = run_calls bc tb (line_runs line).
Proof.
  unfold line_runs, add_line.
  destruct (startswith line (py "http")).
  - cbn [run_calls]. unfold tb_link. now rewrite bind_ok.
  - apply for_add_segment.
Qed.

Lemma run_calls_app bc tb a b :
  run_calls bc tb (a ++ b) = bind (run_calls bc tb a) (fun tb' => run_calls bc tb' b).
Proof.
  revert tb; induction a as [|r a IH]; intros tb; cbn [app run_calls].
  - reflexivity.
  - destruct (tb_call bc tb r); cbn [bind]; [apply IH | reflexivity].
Qed.

Lemma for_add_line bc lines tb :
  for_result (add_line bc) lines tb = run_calls bc tb (flat_map line_runs lines).
Proof.
  revert tb; induction lines as [|l ls IH]; intros tb; cbn [for_result flat_map].
  - reflexivity.
  - rewrite run_calls_app, add_line_calls.
    destruct (run_calls bc tb (line_runs l)); cbn [bind]; [apply IH | reflexivity].
Qed.

(** [make_rich] makes the calls of [rich_runs], in order, up to the first
    that raises. *)
Lemma make_rich_calls bc content :
  make_rich bc content = run_calls bc [] (rich_runs content).
Proof. unfold make_rich, rich_runs. apply for_add_line. Qed.

Lemma run_calls_ok bc calls : forall tb,
  accepted bc calls -> run_calls bc tb calls = Ok (tb ++ calls).
Proof.
  induction calls as [|r calls IH]; intros tb H; cbn [run_calls].
  - now rewrite app_nil_r.
  - unfold tb_call. rewrite (H r (or_introl eq_refl)). cbn [bind].
    rewrite IH by (intros x Hx; apply H; now right).
    now rewrite <- app_assoc.
Qed.

Lemma run_calls_inv bc calls : forall tb tb',
  run_calls bc tb calls = Ok tb' -> tb' = tb ++ calls /\ accepted bc calls.
Proof.
  induction calls as [|r calls IH]; intros tb tb'; cbn [run_calls].
  - intros [= <-]. split; [now rewrite app_nil_r | intros x []].
  - unfold tb_call. destruct (bc r) as [[]|e] eqn:E; cbn [bind]; [|discriminate].
    intros H. apply IH in H. destruct H as [-> Hacc]. split.
    + now rewrite <- app_assoc.
    + intros x [<-|Hx]; auto.
Qed.

(** The outcome of a sequence of calls on a builder that holds runs
    already is its outcome on a new builder, after those runs. *)
Lemma run_calls_shift bc calls : forall tb,
  run_calls bc tb calls = bind (run_calls bc [] calls) (fun added => Ok (tb ++ added)).
Proof.
  intros tb. destruct (run_calls bc [] calls) as [added|e] eqn:E.
  - apply run_calls_inv in E. destruct E as [-> Hacc]. cbn [bind app].
    now apply run_calls_ok.
  - cbn [bind]. revert tb E. generalize (@nil run).
    induction calls as [|r calls IH]; intros tb0 tb; cbn [run_calls]; [discriminate|].
    unfold tb_call. destruct (bc r) as [[]|e']; cbn [bind]; [|easy].
    apply IH.
Qed.

Lemma make_rich_ok bc content :
  accepted bc (rich_runs content) -> make_rich bc content = Ok (rich_runs content).
Proof. intros H. rewrite make_rich_calls. exact (@run_calls_ok bc _ [] H). Qed.

Lemma make_rich_inv bc content runs :
  make_rich bc content = Ok runs ->
  runs = rich_runs content /\ accepted bc (rich_runs content).
Proof. rewrite make_rich_calls. intros H. now apply run_calls_inv in H. Qed.

Lemma add_line_ok bc tb line :
  accepted bc (line_runs line) -> add_line bc tb line = Ok (tb ++ line_runs line).
Proof. intros H. rewrite add_line_calls. now apply run_calls_ok. Qed.

Lemma add_line_inv bc tb line tb' :
  add_line bc tb line = Ok tb' -> tb' = tb ++ line_runs line.
Proof. rewrite add_line_calls. intros H. now apply run_calls_inv in H. Qed.

(** The runs of a line are a part of the runs of the body. *)
Lemma rich_runs_line content line :
  In line (split NL content) ->
  exists before after, rich_runs content = before ++ line_runs line ++ after.
Proof.
  intros Hin. apply in_split in Hin. destruct Hin as [l1 [l2 E]].
  unfold rich_runs. rewrite E, flat_map_app. cbn [flat_map]. eauto.
Qed.

Lemma build_text_app a b : build_text (a ++ b) = build_text a ++ build_text b.
Proof. unfold build_text. now rewrite map_app, concat_app. Qed.

Lemma build_text_flat_map {A} (f : A -> list run) l :
  build_text (flat_map f l) = concat (map (fun x => build_text (f x)) l).
Proof.
  induction l as [|x l IH]; simpl; [reflexivity|].
  now rewrite build_text_app, IH.
Qed.

Lemma display_segment_run len i t :
  display (segment_run len (i, t)) = if Nat.eqb i (len - 1) then t ++ [NL] else t.
Proof.
  unfold segment_run.
  match goal with |- context [startswith ?a ?b] => destruct (startswith a b) end;
    reflexivity.
Qed.

Lemma nth_error_enumerate_from {A} (l : list A) k i :
  nth_error (enumerate_from k l) i = option_map (fun x => ((k + i)%nat, x)) (nth_error l i).
Proof.
  revert k i; induction l as [|x l IH]; intros k [|i]; simpl; try reflexivity.
  - now rewrite Nat.add_0_r.
  - rewrite IH. now rewrite Nat.add_succ_r.
Qed.

(** The segments of a line, their displayed texts put together: the
    line and the newline given to the last segment. *)
Lemma segments_text segs k :
  segs <> [] ->
  build_text (map (segment_run (k + length segs)) (enumerate_from k segs))
  = concat segs ++ [NL].
Proof.
  revert k; induction segs as [|t segs IH]; intros k NE; [congruence|].
  assert (Hcons : forall len,
    build_text (map (segment_run len) (enumerate_from k (t :: segs)))
    = display (segment_run len (k, t))
      ++ build_text (map (segment_run len) (enumerate_from (S k) segs)))
    by reflexivity.
  rewrite Hcons, display_segment_run. clear Hcons.
  destruct segs as [|t' segs'].
  - replace (k + length [t] - 1)%nat with k by (simpl; lia).
    rewrite Nat.eqb_refl. simpl. now rewrite !app_nil_r.
  - replace (k + length (t :: t' :: segs'))%nat
      with (S k + length (t' :: segs'))%nat by (simpl; lia).
    rewrite IH by discriminate.
    replace (Nat.eqb k (S k + length (t' :: segs') - 1)) with false
      by (symmetry; apply Nat.eqb_neq; simpl; lia).
    change (concat (t :: t' :: segs')) with (t ++ concat (t' :: segs')).
    now rewrite app_assoc.
Qed.

Lemma line_text line :
  build_text (line_runs line)
  = if startswith line (py "http") then strip line else line ++ [NL].
Proof.
  destruct (startswith line (py "http")) eqn:E.
  - rewrite line_runs_url by assumption. unfold build_text. simpl. apply app_nil_r.
  - rewrite line_runs_text by assumption.
    pose proof (segments_text (segs := re_split line) 0 (@re_split_nonempty line)) as T.
    simpl in T. unfold enumerate. rewrite T.
    now rewrite re_split_concat.
Qed.

Lemma enumerate_from_app {A} (l1 l2 : list A) k :
  enumerate_from k (l1 ++ l2)
  = enumerate_from k l1 ++ enumerate_from (k + length l1) l2.
Proof.
  revert k; induction l1 as [|x l1 IH]; intros k; simpl.
  - now rewrite Nat.add_0_r.
  - rewrite IH. now rewrite Nat.add_succ_r.
Qed.

Lemma in_enumerate_from {A} (l : list A) k i x :
  In (i, x) (enumerate_from k l) -> In x l.
Proof.
  revert k; induction l as [|y l IH]; intros k; simpl; [tauto|].
  intros [[= _ ->]|H]; [now left | right; eauto].
Qed.

Lemma startswith_hash_app t : startswith (t ++ [NL]) [HASH] = startswith t [HASH].
Proof. destruct t; reflexivity. Qed.

Lemma startswith_hash_inv t : startswith t [HASH] = true -> exists r, t = HASH :: r.
Proof.
  destruct t as [|c r]; simpl; [discriminate|].
  rewrite andb_true_r. intros H. apply N.eqb_eq in H. subst. now exists r.
Qed.

(** The tag value of a hashtag run never holds a character the segment
    did not hold, and never the newline given to the last segment. *)
Lemma segment_tag_chars len i seg t tag x :
  segment_run len (i, seg) = Hashtag t tag -> In x tag -> In x seg /\ In x (skipn 1 seg).
Proof.
  unfold segment_run.
  destruct (Nat.eqb i (len - 1)).
  - rewrite startswith_hash_app.
    destruct (startswith seg [HASH]) eqn:E; [|discriminate].
    apply startswith_hash_inv in E. destruct E as [r ->].
    intros [= _ <-]. cbn [skipn app].
    rewrite strip_app_space by reflexivity.
    intros H. apply strip_incl in H. split; [now right | assumption].
  - destruct (startswith seg [HASH]) eqn:E; [|discriminate].
    apply startswith_hash_inv in E. destruct E as [r ->].
    intros [= _ <-]. cbn [skipn].
    intros H. apply strip_incl in H. split; [now right | assumption].
Qed.

Lemma line_tag_chars line t tag x :
  In (Hashtag t tag) (line_runs line) -> In x tag -> In x line.
Proof.
  destruct (startswith line (py "http")) eqn:E.
  - rewrite line_runs_url by assumption. intros [H|[]]. discriminate.
  - rewrite line_runs_text by assumption. intros H Hx.
    apply in_map_iff in H. destruct H as [[i seg] [Hrun Hin]].
    apply in_enumerate_from in Hin.
    destruct (@segment_tag_chars _ _ _ _ _ _ Hrun Hx) as [Hseg _].
    rewrite <- (re_split_concat line). apply in_concat. eauto.
Qed.

(** A line that does not start with [http] yields no link run. *)
Lemma text_line_has_no_link line t u :
  startswith line (py "http") = false -> ~ In (Link t u) (line_runs line).
Proof.
  intros H. rewrite line_runs_text by assumption. intros Hin.
  apply in_map_iff in Hin. destruct Hin as [[i seg] [Hrun _]].
  unfold segment_run in Hrun.
  match type of Hrun with context [startswith ?a ?b] => destruct (startswith a b) end;
    discriminate.
Qed.

(* ===================================================================== *)
(** * C2, C4, C10: the rich-text tokenizer *)
(* ===================================================================== *)

(** C2, as the code has it.  [make_rich] returns when the builder raises
    on none of its calls, and its runs are then those of [rich_runs].  The
    runs of a line that does not start with [http] display the line
    followed by one newline: the newline goes to the last run of every
    such line, not only of the body's last line.  A line that starts with
    [http] is displayed trimmed, with no newline.  So a body none of whose
    lines starts with [http] is displayed in full with one newline
    more. *)
Theorem make_rich_display_text :
  forall (builder_check : run -> result unit) (content : str),
    (accepted builder_check (rich_runs content) ->
     make_rich builder_check content = Ok (rich_runs content)) /\
    (forall runs,
        make_rich builder_check content = Ok runs ->
        build_text runs
        = concat (map (fun line => if startswith line (py "http") then strip line
                                   else line ++ [NL])
                      (split NL content)) /\
        (forallb (fun line => negb (startswith line (py "http"))) (split NL content) = true ->
         build_text runs = content ++ [NL])) /\
    (forall tb line,
        accepted builder_check (line_runs line) ->
        add_line builder_check tb line = Ok (tb ++ line_runs line)) /\
    (forall tb line tb',
        add_line builder_check tb line = Ok tb' ->
        exists added,
          tb' = tb ++ added /\
          build_text added
          = if startswith line (py "http") then strip line else line ++ [NL]).
Proof.
  intros bc content. split; [apply make_rich_ok|]. split; [|split].
  - intros runs H. apply make_rich_inv in H. destruct H as [-> _].
    assert (B : build_text (rich_runs content)
                = concat (map (fun line => if startswith line (py "http") then strip line
                                           else line ++ [NL])
                              (split NL content))).
    { unfold rich_runs. rewrite build_text_flat_map. f_equal.
      apply map_ext. intros line. apply line_text. }
    split; [exact B|].
    intros H. rewrite B.
    rewrite <- (join_split NL content) at 2.
    rewrite <- concat_lines by apply split_nonempty.
    f_equal. apply map_ext_in. intros line Hin.
    rewrite forallb_forall in H. specialize (H line Hin).
    apply negb_true_iff in H. now rewrite H.
  - intros tb line H. now apply add_line_ok.
  - intros tb line tb' H. apply add_line_inv in H.
    exists (line_runs line). split; [exact H | apply line_text].
Qed.

(** C2 as stated fails: in the body ["T\nhttp://x "] the last line loses
    its trailing blank and gets no newline, and the line before it, which
    is not the last one, is displayed with a newline.  This is so with
    every builder that raises on none of the calls. *)
Lemma make_rich_display_text_counterexample :
  make_rich utf8_builder (py "T" ++ [NL] ++ py "http://x ")
  = Ok [PlainText (py "T" ++ [NL]); Link (py "http://x") (py "http://x")] /\
  add_line utf8_builder [] (py "http://x ") = Ok [Link (py "http://x") (py "http://x")] /\
  py "http://x" <> py "http://x " ++ [NL] /\
  py "http://x" <> py "http://x " /\
  add_line utf8_builder [] (py "T") = Ok [PlainText (py "T" ++ [NL])] /\
  (forall builder_check runs,
      make_rich builder_check (py "T" ++ [NL] ++ py "http://x ") = Ok runs ->
      runs = [PlainText (py "T" ++ [NL]); Link (py "http://x") (py "http://x")] /\
      build_text runs = py "T" ++ [NL] ++ py "http://x").
Proof.
  split; [reflexivity|]. split; [reflexivity|].
  split; [vm_compute; discriminate|]. split; [vm_compute; discriminate|].
  split; [reflexivity|].
  intros bc runs H. apply make_rich_inv in H. destruct H as [-> _].
  split; reflexivity.
Qed.

(** C4, as the code has it.  The test is made on the line as it stands:
    a line that itself starts with [http] makes the one call
    [link(url, url)] with the trimmed line, so that the rich text
    [make_rich] returns holds that link run; a line that does not (a URL
    after leading whitespace, say) adds no link run at all. *)
Theorem url_line_is_link :
  forall (builder_check : run -> result unit) (line : str),
    (startswith line (py "http") = true ->
     line_runs line = [Link (strip line) (strip line)] /\
     (forall tb, add_line builder_check tb line
                 = tb_link builder_check tb (strip line) (strip line)) /\
     (forall tb tb', add_line builder_check tb line = Ok tb' ->
                     tb' = tb ++ [Link (strip line) (strip line)]) /\
     (forall content runs,
         In line (split NL content) ->
         make_rich builder_check content = Ok runs ->
         In (Link (strip line) (strip line)) runs)) /\
    (startswith line (py "http") = false ->
     (forall t u, ~ In (Link t u) (line_runs line)) /\
     (forall tb tb' t u, add_line builder_check tb line = Ok tb' ->
                         In (Link t u) tb' -> In (Link t u) tb)) /\
    (forall tb, accepted builder_check (line_runs line) ->
                add_line builder_check tb line = Ok (tb ++ line_runs line)).
Proof.
  intros bc line. split; [|split].
  - intros H. split; [now apply line_runs_url|]. split; [|split].
    + intros tb. unfold add_line. now rewrite H.
    + intros tb tb' E. apply add_line_inv in E.
      now rewrite line_runs_url in E by assumption.
    + intros content runs Hin E. apply make_rich_inv in E. destruct E as [-> _].
      unfold rich_runs. apply in_flat_map.
      exists line. split; [assumption|]. rewrite line_runs_url by assumption. now left.
  - intros H. split.
    + intros t u. now apply text_line_has_no_link.
    + intros tb tb' t u E Hin. apply add_line_inv in E. subst tb'.
      apply in_app_or in Hin. destruct Hin as [Hin|Hin]; [assumption|].
      exfalso. now apply (@text_line_has_no_link line t u H).
  - intros tb H. now apply add_line_ok.
Qed.

Lemma url_line_is_link_witness :
  line_runs (py "http://example.com/a ")
  = [Link (strip (py "http://example.com/a ")) (strip (py "http://example.com/a "))] /\
  (forall tb, add_line utf8_builder tb (py "http://example.com/a ")
              = tb_link utf8_builder tb (strip (py "http://example.com/a "))
                  (strip (py "http://example.com/a "))) /\
  (forall tb tb', add_line utf8_builder tb (py "http://example.com/a ") = Ok tb' ->
                  tb' = tb ++ [Link (strip (py "http://example.com/a "))
                                 (strip (py "http://example.com/a "))]) /\
  (forall content runs,
      In (py "http://example.com/a ") (split NL content) ->
      make_rich utf8_builder content = Ok runs ->
      In (Link (strip (py "http://example.com/a ")) (strip (py "http://example.com/a ")))
         runs).
Proof.
  apply (proj1 (url_line_is_link utf8_builder (py "http://example.com/a "))). reflexivity.
Defined.

(** C4 as stated fails: a URL after leading whitespace starts with
    [http] once trimmed, and is emitted as plain text, whatever the
    builder. *)
Lemma url_line_is_link_counterexample :
  startswith (strip (py " http://x")) (py "http") = true /\
  make_rich utf8_builder (py " http://x") = Ok [PlainText (py " http://x" ++ [NL])] /\
  (forall builder_check runs,
      make_rich builder_check (py " http://x") = Ok runs ->
      runs = [PlainText (py " http://x" ++ [NL])]).
Proof.
  split; [reflexivity|]. split; [reflexivity|].
  intros bc runs H. apply make_rich_inv in H. destruct H as [-> _]. reflexivity.
Qed.

(** C10, as the code has it.  In the rich text [make_rich] returns, no
    hashtag run's tag value holds a newline.  The hashtag split of a line
    has an odd number of segments, so it ends with a text segment; the
    runs of the line are a part of the rich text; every match of the
    pattern (the segments at odd indices) becomes a hashtag run that
    displays [#] and its alphanumeric tag; and the last segment, which
    gets the newline, becomes a plain-text run when it does not start
    with [#]. *)
Theorem hashtag_runs :
  forall (builder_check : run -> result unit) (content : str),
    (accepted builder_check (rich_runs content) ->
     make_rich builder_check content = Ok (rich_runs content)) /\
    forall runs,
      make_rich builder_check content = Ok runs ->
      (forall t tag, In (Hashtag t tag) runs -> ~ In NL tag) /\
      forall line,
        In line (split NL content) ->
        startswith line (py "http") = false ->
        Nat.odd (length (re_split line)) = true /\
        (exists before after, runs = before ++ line_runs line ++ after) /\
        (forall tb tb', add_line builder_check tb line = Ok tb' ->
                        tb' = tb ++ line_runs line) /\
        (forall i m,
            nth_error (re_split line) i = Some m -> Nat.odd i = true ->
            exists tag,
              m = HASH :: tag /\ tag <> [] /\ forallb is_alnum tag = true /\
              nth_error (line_runs line) i = Some (Hashtag m tag) /\
              In (Hashtag m tag) runs) /\
        (forall t,
            last (re_split line) [] = t -> startswith t [HASH] = false ->
            last (line_runs line) (PlainText []) = PlainText (t ++ [NL]) /\
            In (PlainText (t ++ [NL])) runs).
Proof.
  intros bc content. split; [apply make_rich_ok|].
  intros runs Hruns. apply make_rich_inv in Hruns. destruct Hruns as [-> _]. split.
  - intros t tag Hin Hnl. unfold rich_runs in Hin.
    apply in_flat_map in Hin. destruct Hin as [line [Hline Hrun]].
    apply (@split_no_sep _ _ _ Hline). eapply line_tag_chars; eauto.
  - intros line Hline Hurl.
    destruct (re_split_shape line) as [Hodd Htags].
    assert (Hpart : forall r, In r (line_runs line) -> In r (rich_runs content)).
    { intros r Hr. unfold rich_runs. apply in_flat_map. eauto. }
    split; [exact Hodd|]. split; [now apply rich_runs_line|].
    split; [intros tb tb'; apply add_line_inv|]. split.
    + intros i m Hi Hoddi.
      destruct (is_tag_inv _ (Htags i m Hi Hoddi)) as [tag [-> [Hne Hal]]].
      exists tag.
      assert (N : nth_error (line_runs line) i = Some (Hashtag (HASH :: tag) tag)).
      { rewrite line_runs_text by assumption. unfold enumerate.
        rewrite nth_error_map, nth_error_enumerate_from, Hi. simpl. f_equal.
        assert (Hlast : Nat.eqb i (length (re_split line) - 1) = false).
        { apply Nat.eqb_neq. intros ->.
          assert (L : nth_error (re_split line) (length (re_split line) - 1) <> None)
            by congruence.
          apply nth_error_Some in L.
          replace (length (re_split line)) with (S (length (re_split line) - 1)) in Hodd
            by lia.
          rewrite Nat.odd_succ, <- Nat.negb_odd, Hoddi in Hodd. discriminate. }
        rewrite Hlast. simpl. now rewrite strip_alnum. }
      repeat split; auto.
      apply Hpart. eapply nth_error_In; eauto.
    + intros t Ht Hhash.
      assert (L : last (line_runs line) (PlainText []) = PlainText (t ++ [NL])).
      { rewrite line_runs_text by assumption.
        pose proof (@re_split_nonempty line) as NE.
        destruct (exists_last NE) as [init [t' E]].
        rewrite E in Ht |- *. rewrite last_last in Ht. subst t'.
        unfold enumerate. rewrite enumerate_from_app, map_app.
        cbn [enumerate_from map]. rewrite last_last.
        unfold segment_run. rewrite length_app. cbn [length Nat.add].
        replace (length init + 1 - 1)%nat with (length init) by lia.
        rewrite Nat.eqb_refl, startswith_hash_app, Hhash. reflexivity. }
      split; [exact L|]. apply Hpart. rewrite <- L.
      assert (NE : line_runs line <> []).
      { rewrite line_runs_text by assumption. unfold enumerate.
        pose proof (@re_split_nonempty line) as NE.
        destruct (re_split line); [congruence | discriminate]. }
      destruct (exists_last NE) as [init [r E]]. rewrite E, last_last.
      apply in_or_app. right. now left.
Qed.

(** C10 as stated fails: the split of the line ["#"] is the one segment
    ["#"], which gets the newline and, since it starts with [#], becomes a
    hashtag run: its text holds the newline and its tag is empty. *)
Lemma hashtag_runs_counterexample :
  re_split (py "#") = [py "#"] /\
  make_rich utf8_builder (py "#") = Ok [Hashtag (py "#" ++ [NL]) []] /\
  (forall builder_check runs,
      make_rich builder_check (py "#") = Ok runs ->
      runs = [Hashtag (py "#" ++ [NL]) []]).
Proof.
  split; [reflexivity|]. split; [reflexivity|].
  intros bc runs H. apply make_rich_inv in H. destruct H as [-> _]. reflexivity.
Qed.

(* ===================================================================== *)
(** * C3: the title sanitizer *)
(* ===================================================================== *)

Lemma utf8_decode_ascii_cons errors b r :
  Byte.to_N b < 128 ->
  utf8_decode errors (b :: r)
  = bind (utf8_decode errors r) (fun s => Ok (Byte.to_N b :: s)).
Proof.
  intros H. apply N.ltb_lt in H. cbn [utf8_decode]. now rewrite H.
Qed.

(** ASCII text encoded as Latin-1 is valid UTF-8 for the same text. *)
Lemma ascii_latin1_utf8 s :
  is_ascii s = true ->
  exists bs, latin1_encode s = Ok bs /\ utf8_decode Strict bs = Ok s.
Proof.
  induction s as [|c r IH]; intros H.
  - exists []. split; reflexivity.
  - simpl in H. apply andb_true_iff in H. destruct H as [Hc Hr].
    apply N.ltb_lt in Hc. destruct (IH Hr) as [bs [E D]].
    destruct (Byte.of_N c) as [b|] eqn:B.
    + exists (b :: bs). split.
      * simpl. rewrite B, E. reflexivity.
      * apply Byte.to_of_N in B.
        rewrite utf8_decode_ascii_cons by lia. rewrite D. simpl. now rewrite B.
    + apply Byte.of_N_None_iff in B. lia.
Qed.

Lemma fix_encoding_ascii s : is_ascii s = true -> fix_encoding s = Ok s.
Proof.
  intros H. destruct (ascii_latin1_utf8 s H) as [bs [E D]].
  unfold fix_encoding. rewrite E. simpl. now rewrite D.
Qed.

Lemma unescape_without_amp html5 s :
  existsb (N.eqb AMP) s = false -> unescape html5 s = Ok s.
Proof. intros H. unfold unescape. now rewrite H. Qed.

Lemma closes_tag_app a b : closes_tag a = true -> closes_tag (a ++ b) = true.
Proof.
  induction a as [|c a IH]; simpl; [discriminate|].
  destruct (c =? GT); [reflexivity|]. destruct (c =? NL); [discriminate | exact IH].
Qed.

Lemma is_html_prefix a b : is_html (a ++ b) = false -> is_html a = false.
Proof.
  induction a as [|c a IH]; simpl; [reflexivity|].
  intros H. apply orb_false_iff in H. destruct H as [H1 H2].
  rewrite (IH H2), orb_false_r.
  destruct (c =? LT); [|reflexivity]. simpl in *.
  destruct (closes_tag a) eqn:C; [|reflexivity].
  now rewrite (closes_tag_app a b C) in H1.
Qed.

Lemma is_html_drop_while p s : is_html s = false -> is_html (drop_while p s) = false.
Proof.
  induction s as [|c r IH]; simpl; [reflexivity|].
  intros H. destruct (p c).
  - apply IH. now apply orb_false_iff in H.
  - exact H.
Qed.

Lemma rstrip_prefix s : exists trailing, s = rstrip s ++ trailing.
Proof.
  exists (rev (take_while isspace (rev s))). unfold rstrip.
  rewrite <- rev_app_distr, take_drop_while. now rewrite rev_involutive.
Qed.

Lemma is_html_strip s : is_html s = false -> is_html (strip s) = false.
Proof.
  intros H. unfold strip, lstrip. apply is_html_drop_while.
  destruct (rstrip_prefix s) as [trailing E]. rewrite E in H.
  now apply is_html_prefix in H.
Qed.

Lemma forallb_strip p s : forallb p s = true -> forallb p (strip s) = true.
Proof.
  rewrite !forallb_forall. intros H x Hx. apply H. now apply strip_incl.
Qed.

Lemma existsb_strip p s : existsb p s = false -> existsb p (strip s) = false.
Proof.
  intros H. destruct (existsb p (strip s)) eqn:E; [|reflexivity].
  apply existsb_exists in E. destruct E as [x [Hx Hp]].
  assert (existsb p s = true) by (apply existsb_exists; exists x; split;
                                  [now apply strip_incl | assumption]).
  congruence.
Qed.

(** On a title with no tag, no [&] and only ASCII characters the
    sanitizer is [strip]. *)
Lemma process_title_clean html5 bs_get_text s :
  is_ascii s = true -> is_html s = false -> existsb (N.eqb AMP) s = false ->
  process_title html5 bs_get_text s = strip s.
Proof.
  intros Ha Hh Hamp. unfold process_title, process_title_body.
  rewrite Hh. simpl. unfold desescapar_unicode.
  rewrite unescape_without_amp by now apply existsb_strip.
  rewrite fix_encoding_ascii by now apply forallb_strip.
  reflexivity.
Qed.

(** C3, as the code has it.  On a pure-ASCII title with no tag and no
    [&] (no character reference to expand) the sanitizer trims the title,
    and applying it again changes nothing. *)
Theorem process_title_idempotent :
  forall (html5 : str -> option str) (bs_get_text : str -> result str) (s : str),
    is_ascii s = true ->
    is_html s = false ->
    existsb (N.eqb AMP) s = false ->
    process_title html5 bs_get_text s = strip s /\
    process_title html5 bs_get_text (process_title html5 bs_get_text s)
    = process_title html5 bs_get_text s.
Proof.
  intros html5 bs_get_text s Ha Hh Hamp.
  rewrite (process_title_clean html5 bs_get_text s) by assumption.
  split; [reflexivity|].
  rewrite process_title_clean.
  - apply strip_idem.
  - now apply forallb_strip.
  - now apply is_html_strip.
  - now apply existsb_strip.
Qed.

Lemma process_title_idempotent_witness :
  process_title (fun _ => None) (fun t => Ok t) (py "  Hello world ")
  = strip (py "  Hello world ") /\
  process_title (fun _ => None) (fun t => Ok t)
    (process_title (fun _ => None) (fun t => Ok t) (py "  Hello world "))
  = process_title (fun _ => None) (fun t => Ok t) (py "  Hello world ").
Proof.
  apply (process_title_idempotent (fun _ => None) (fun t => Ok t) (py "  Hello world "));
    reflexivity.
Defined.

(** C3 as stated fails: the title [&#38;#38;] is pure ASCII and has no
    tag; sanitizing it gives [&#38;], and sanitizing that gives [&],
    whatever the entity table and the HTML parser are. *)
Lemma process_title_idempotent_counterexample :
  is_ascii (py "&#38;#38;") = true /\
  is_html (py "&#38;#38;") = false /\
  forall (html5 : str -> option str) (bs_get_text : str -> result str),
    process_title html5 bs_get_text (py "&#38;#38;") = py "&#38;" /\
    process_title html5 bs_get_text (process_title html5 bs_get_text (py "&#38;#38;"))
    = py "&" /\
    process_title html5 bs_get_text (process_title html5 bs_get_text (py "&#38;#38;"))
    <> process_title html5 bs_get_text (py "&#38;#38;").
Proof.
  split; [reflexivity|]. split; [reflexivity|].
  intros html5 bs_get_text.
  assert (E1 : process_title html5 bs_get_text (py "&#38;#38;") = py "&#38;")
    by (vm_compute; reflexivity).
  assert (E2 : process_title html5 bs_get_text (py "&#38;") = py "&")
    by (vm_compute; reflexivity).
  rewrite E1, E2. repeat split. vm_compute. discriminate.
Qed.

(* ===================================================================== *)
(** * C7: the encoding normalizer *)
(* ===================================================================== *)

(** C7.  Whatever the bytes and whatever the detector answers, the
    normalizer returns a string: the detected text when the detector's
    best match has one, the Latin-1 reading of the bytes otherwise (the
    Latin-1 decoder accepts every byte, so the UTF-8 tier is never
    reached). *)
Theorem decode_feed_total :
  forall (charset_best : bytes -> option CharsetMatch) (content : bytes),
    exists s : str,
      decode_feed charset_best content = Ok s /\
      s = match charset_best content with
          | Some {| cm_text := Some t |} => t
          | _ => map Byte.to_N content
          end.
Proof.
  intros charset_best content. unfold decode_feed.
  destruct (charset_best content) as [[[t|]]|]; simpl; eauto.
Qed.

(* ===================================================================== *)
(** * C9: the login loop *)
(* ===================================================================== *)

Lemma next_backoff_delay k : next_backoff (delay k) = delay (S k).
Proof. unfold next_backoff, delay. lia. Qed.

Lemma delay_bounds k :
  (60 <= delay k <= 600 /\ delay k <= delay (S k) /\
   (delay k = 600 -> delay (S k) = 600) /\
   (delay k < 600 -> delay (S k) = delay k + 60))%Z.
Proof. unfold delay. lia. Qed.

Lemma failed_attempts_succ u p n :
  failed_attempts u p (S n)
  = failed_attempts u p n ++ [EvLogin u p false; EvSleep (delay n)].
Proof.
  unfold failed_attempts. rewrite seq_S, flat_map_app. reflexivity.
Qed.

Section LoginLoop.

Variable client_login : history -> str -> str -> result unit.
Variables username password : str.

(** The loop entered with the delay of attempt [k], after [k] failed
    attempts: it goes on exactly as long as the attempts fail. *)
Lemma login_loop_from fuel : forall k h0,
  exists n,
    (n <= fuel)%nat /\
    login_loop client_login fuel username password (delay k)
      (h0 ++ failed_attempts username password k)
    = (Ok (n <? fuel)%nat,
       h0 ++ failed_attempts username password (k + n)
          ++ (if (n <? fuel)%nat then [EvLogin username password true] else [])) /\
    (forall j, (j < n)%nat ->
       is_ok (client_login (h0 ++ failed_attempts username password (k + j))
                username password) = false) /\
    ((n < fuel)%nat ->
       is_ok (client_login (h0 ++ failed_attempts username password (k + n))
                username password) = true).
Proof.
  induction fuel as [|fuel IH]; intros k h0.
  - exists 0%nat. repeat split; try lia.
    simpl. unfold ret. now rewrite Nat.add_0_r, app_nil_r.
  - cbn [login_loop]. unfold try_exceptM, bindM, login.
    destruct (client_login (h0 ++ failed_attempts username password k)
                username password) as [[]|e] eqn:L.
    + exists 0%nat. repeat split; try lia.
      * simpl. unfold ret. now rewrite Nat.add_0_r, <- app_assoc.
      * intros _. now rewrite Nat.add_0_r, L.
    + simpl. unfold sleep.
      destruct (IH (S k) h0) as [n [Hn [E [Hfail Hok]]]].
      exists (S n). split; [lia|].
      rewrite failed_attempts_succ in E. rewrite next_backoff_delay.
      rewrite <- !app_assoc in *. cbn [app] in *. rewrite E.
      replace (k + S n)%nat with (S k + n)%nat by lia.
      repeat split.
      * intros [|j] Hj.
        -- now rewrite Nat.add_0_r, L.
        -- replace (k + S j)%nat with (S k + j)%nat by lia. apply Hfail. lia.
      * intros Hlt. apply Hok. lia.
Qed.

End LoginLoop.

(* ===================================================================== *)
(** * The driver: what each step adds to the history *)
(* ===================================================================== *)

Section DriverFacts.

Variable html5 : str -> option str.
Variable bs_get_text : str -> result str.
Variable Soup : Type.
Variable BeautifulSoup : str -> result Soup.
Variable soup_find : Soup -> selector -> option Tag.
Variable raise_for_status : Response -> result unit.
Variable builder_check : run -> result unit.
Variable client_upload_blob : history -> bytes -> result BlobRef.
Variable client_send_post : history -> TextBuilder -> option Embed -> result unit.
Variable httpx_get : history -> str -> result Response.
Variable charset_best : bytes -> option CharsetMatch.
Variable fastfeedparser_parse : str -> result (list FeedEntry).
Variable client_login : history -> str -> str -> result unit.
Variable client_get_author_feed : history -> str -> result (list FeedViewPost).

Local Abbreviation fetch_link_metadata :=
  (fetch_link_metadata BeautifulSoup soup_find raise_for_status httpx_get).
Local Abbreviation fetch_link_metadata_body :=
  (fetch_link_metadata_body BeautifulSoup soup_find raise_for_status httpx_get).
Local Abbreviation get_image_from_url := (get_image_from_url client_upload_blob httpx_get).
Local Abbreviation compose_embed :=
  (compose_embed BeautifulSoup soup_find raise_for_status client_upload_blob httpx_get).
Local Abbreviation process_item :=
  (process_item html5 bs_get_text BeautifulSoup soup_find raise_for_status
     builder_check client_upload_blob client_send_post httpx_get).
Local Abbreviation process_title := (process_title html5 bs_get_text).
Local Abbreviation make_rich := (make_rich builder_check).
Local Abbreviation read_item := (read_item html5 bs_get_text builder_check).
Local Abbreviation texts_due := (texts_due html5 bs_get_text builder_check).

Local Abbreviation image_uploaded := (image_uploaded client_upload_blob httpx_get).
Local Abbreviation preview_uploaded := (preview_uploaded client_upload_blob httpx_get).
Local Abbreviation fetch_fails := (fetch_fails BeautifulSoup raise_for_status httpx_get).
Local Abbreviation get_last_bsky := (get_last_bsky client_get_author_feed).
Local Abbreviation login_loop := (login_loop client_login).
Local Abbreviation main :=
  (main html5 bs_get_text BeautifulSoup soup_find charset_best fastfeedparser_parse
     raise_for_status builder_check client_login client_get_author_feed
     client_upload_blob client_send_post httpx_get).

Lemma extends_ret {A} (a : A) : extends (ret a).
Proof. intros h. exists (Ok a), []. unfold ret. now rewrite app_nil_r. Qed.

Lemma extends_lift {A} (r : result A) : extends (lift r).
Proof. intros h. exists r, []. unfold lift. now rewrite app_nil_r. Qed.

Lemma extends_bind {A B} (c : M A) (k : A -> M B) :
  extends c -> (forall a, extends (k a)) -> extends (bindM c k).
Proof.
  intros Hc Hk h. destruct (Hc h) as [r [evs E]]. unfold bindM. rewrite E.
  destruct r as [a|e].
  - destruct (Hk a (h ++ evs)) as [r' [evs' E']].
    exists r', (evs ++ evs'). now rewrite E', app_assoc.
  - now exists (Raise e), evs.
Qed.

Lemma fetch_link_metadata_run url h :
  exists md, fetch_link_metadata url h = (Ok md, h ++ [EvHttpGet url]).
Proof.
  unfold fetch_link_metadata, try_exceptM,
    fetch_link_metadata_body, bindM, http_get, lift, ret.
  destruct (httpx_get h url) as [r|e]; [|simpl; eauto].
  destruct (raise_for_status r) as [[]|e]; [|simpl; eauto].
  destruct (BeautifulSoup (text r)) as [soup|e]; simpl; eauto.
Qed.

Lemma fetch_link_metadata_fails url h e :
  fetch_fails h url e ->
  fetch_link_metadata url h = (Ok empty_metadata, h ++ [EvHttpGet url]).
Proof.
  unfold fetch_link_metadata, try_exceptM,
    fetch_link_metadata_body, bindM, http_get, lift, ret.
  intros [H|[[r [H1 H2]]|[r [H1 [H2 H3]]]]].
  - now rewrite H.
  - now rewrite H1, H2.
  - now rewrite H1, H2, H3.
Qed.

Lemma get_image_from_url_run url alt_text h :
  exists img evs,
    get_image_from_url url alt_text h = (Ok img, h ++ EvHttpGet url :: evs) /\
    forallb (fun e => negb (is_send_post e)) evs = true /\
    (forall blob, image_uploaded h url blob ->
                  img = Some {| alt := alt_text; image := blob |}) /\
    (img <> None -> exists blob, image_uploaded h url blob).
Proof.
  unfold get_image_from_url, try_exceptM, bindM, http_get, upload_blob, ret,
    image_uploaded.
  destruct (httpx_get h url) as [r|e] eqn:G.
  - destruct (status_code r =? 200)%Z eqn:S; simpl.
    + apply Z.eqb_eq in S.
      destruct (client_upload_blob (h ++ [EvHttpGet url]) (content r)) as [blob|e] eqn:U.
      * exists (Some {| alt := alt_text; image := blob |}), [EvUploadBlob (content r)].
        rewrite <- app_assoc. repeat split.
        -- intros blob' [r' [G' [_ U']]]. congruence.
        -- intros _. exists blob, r. auto.
      * exists None, [EvUploadBlob (content r)]. simpl.
        rewrite <- app_assoc. repeat split.
        -- intros blob' [r' [G' [_ U']]]. congruence.
        -- congruence.
    + apply Z.eqb_neq in S. exists None, []. repeat split.
      * intros blob' [r' [G' [S' _]]]. congruence.
      * congruence.
  - simpl. exists None, []. repeat split.
    + intros blob' [r' [G' _]]. congruence.
    + congruence.
Qed.

Lemma compose_embed_run title_text item_link h :
  exists md embed evs,
    fetch_link_metadata item_link h = (Ok md, h ++ [EvHttpGet item_link]) /\
    compose_embed title_text item_link h
    = (Ok embed, h ++ EvHttpGet item_link :: evs) /\
    forallb (fun e => negb (is_send_post e)) evs = true /\
    (forall blob,
        preview_uploaded (h ++ [EvHttpGet item_link]) md blob ->
        embed = Some (EmbedImages
                        [{| alt := or_else (Some title_text)
                                     (or_else (meta_title md) (py "Preview image"));
                            image := blob |}])) /\
    ((exists imgs, embed = Some (EmbedImages imgs)) ->
     exists blob, preview_uploaded (h ++ [EvHttpGet item_link]) md blob) /\
    ((forall blob, ~ preview_uploaded (h ++ [EvHttpGet item_link]) md blob) ->
     embed = link_card item_link md).
Proof.
  destruct (fetch_link_metadata_run item_link h) as [md E].
  exists md. unfold compose_embed, bindM. rewrite E.
  assert (Hcard : forall imgs, link_card item_link md <> Some (EmbedImages imgs)).
  { intros imgs. unfold link_card.
    destruct (truthy (meta_title md) || truthy (meta_description md)); discriminate. }
  destruct (meta_image md) as [[|c url]|] eqn:I.
  - exists (link_card item_link md), []. unfold ret. repeat split; auto.
    + intros blob [url [Hu [Hne _]]]. congruence.
    + intros [imgs Himgs]. now apply Hcard in Himgs.
  - destruct (get_image_from_url_run (c :: url)
                (or_else (Some title_text) (or_else (meta_title md) (py "Preview image")))
                (h ++ [EvHttpGet item_link]))
      as [img [evs [G [Q [Hup Hsome]]]]].
    rewrite G. unfold ret. rewrite <- app_assoc. cbn [app].
    destruct img as [i|].
    + exists (Some (EmbedImages [i])), (EvHttpGet (c :: url) :: evs).
      destruct Hsome as [blob Hblob]; [discriminate|].
      pose proof (Hup blob Hblob) as Hi. injection Hi as ->.
      repeat split; auto.
      * intros blob' [url' [Hu [_ Hb]]]. rewrite I in Hu. injection Hu as <-.
        pose proof (Hup blob' Hb) as Hi. now injection Hi as ->.
      * intros _. exists blob, (c :: url). repeat split; auto. discriminate.
      * intros Hnot. exfalso. apply (Hnot blob).
        exists (c :: url). repeat split; auto. discriminate.
    + exists (link_card item_link md), (EvHttpGet (c :: url) :: evs).
      repeat split; auto.
      * intros blob [url' [Hu [_ Hb]]]. rewrite I in Hu. injection Hu as <-.
        pose proof (Hup blob Hb). discriminate.
      * intros [imgs Himgs]. now apply Hcard in Himgs.
  - exists (link_card item_link md), []. unfold ret. repeat split; auto.
    + intros blob [url [Hu _]]. congruence.
    + intros [imgs Himgs]. now apply Hcard in Himgs.
Qed.

(** [o or default], case by case. *)
Lemma truthy_non_empty o : truthy o = true <-> non_empty o.
Proof.
  unfold non_empty. destruct o as [[|c s]|]; simpl; split; try discriminate.
  - intros [s [[= <-] H]]. congruence.
  - intros _. exists (c :: s). split; [reflexivity | discriminate].
  - intros _. reflexivity.
  - intros [s [H _]]. discriminate.
Qed.

Lemma or_else_non_empty o default s : o = Some s -> s <> [] -> or_else o default = s.
Proof. intros -> H. destruct s; [congruence | reflexivity]. Qed.

Lemma or_else_default o default : ~ non_empty o -> or_else o default = default.
Proof.
  intros H. unfold or_else. destruct (truthy o) eqn:T; [|reflexivity].
  apply truthy_non_empty in T. contradiction.
Qed.

(** The reads of an entry, one by one. *)
Lemma read_item_intro item rss_time item_title item_link rich_text :
  published item = Ok rss_time -> title item = Ok item_title ->
  link item = Ok item_link ->
  make_rich (process_title item_title ++ [NL] ++ item_link) = Ok rich_text ->
  read_item item = Ok (rss_time, process_title item_title, item_link, rich_text).
Proof. intros P T L R. unfold read_item. rewrite P, T, L. cbn [bind]. now rewrite R. Qed.

Lemma read_item_inv item rss_time title_text item_link rich_text :
  read_item item = Ok (rss_time, title_text, item_link, rich_text) ->
  exists item_title,
    published item = Ok rss_time /\ title item = Ok item_title /\
    link item = Ok item_link /\ title_text = process_title item_title /\
    make_rich (title_text ++ [NL] ++ item_link) = Ok rich_text.
Proof.
  unfold read_item.
  destruct (published item) as [p|]; cbn [bind]; [|discriminate].
  destruct (title item) as [t|]; cbn [bind]; [|discriminate].
  destruct (link item) as [l|]; cbn [bind]; [|discriminate].
  destruct (make_rich (process_title t ++ [NL] ++ l)) as [r|] eqn:R; cbn [bind];
    [|discriminate].
  intros [= <- <- <- <-]. exists t. auto.
Qed.

(** One pass of the loop body: the reads, then the gate. *)
Lemma process_item_read last_bsky item h :
  process_item last_bsky item h
  = match read_item item with
    | Ok (rss_time, title_text, item_link, rich_text) =>
        if (last_bsky <? rss_time)%Z then
          bindM (compose_embed title_text item_link)
            (fun embed => try_exceptM (send_post client_send_post rich_text embed)
                            catch_all (ret tt)) h
        else (Ok tt, h)
    | Raise e => (Raise e, h)
    end.
Proof.
  unfold process_item, read_item, bindM, lift, ret.
  destruct (published item) as [p|]; cbn [bind]; [|reflexivity].
  destruct (title item) as [t|]; cbn [bind]; [|reflexivity].
  destruct (link item) as [l|]; cbn [bind]; [|reflexivity].
  destruct (make_rich (process_title t ++ [NL] ++ l)) as [r|]; cbn [bind];
    [|reflexivity].
  destruct (last_bsky <? p)%Z; reflexivity.
Qed.

(** An entry that does not read (or whose rich text does not build):
    the exception leaves the loop body before any call. *)
Lemma process_item_raises last_bsky item h e :
  read_item item = Raise e -> process_item last_bsky item h = (Raise e, h).
Proof. intros R. now rewrite process_item_read, R. Qed.

(** An entry newer than the marker: the embed is composed and the post
    is submitted, whether or not the submission raises. *)
Lemma process_item_new last_bsky item h rss_time title_text item_link rich_text :
  read_item item = Ok (rss_time, title_text, item_link, rich_text) ->
  (last_bsky <? rss_time)%Z = true ->
  exists embed h',
    compose_embed title_text item_link h = (Ok embed, h') /\
    process_item last_bsky item h = (Ok tt, h' ++ [EvSendPost rich_text embed]).
Proof.
  intros R Hgate.
  destruct (compose_embed_run title_text item_link h) as [md [embed [evs [_ [C _]]]]].
  exists embed. eexists. split; [exact C|].
  rewrite process_item_read, R, Hgate. unfold bindM. rewrite C.
  unfold try_exceptM, send_post.
  destruct (client_send_post _ _ _) as [[]|e]; reflexivity.
Qed.

Lemma process_item_old last_bsky item h rss_time title_text item_link rich_text :
  read_item item = Ok (rss_time, title_text, item_link, rich_text) ->
  (last_bsky <? rss_time)%Z = false ->
  process_item last_bsky item h = (Ok tt, h).
Proof. intros R Hgate. now rewrite process_item_read, R, Hgate. Qed.

Lemma sent_texts_app a b : sent_texts (a ++ b) = sent_texts a ++ sent_texts b.
Proof. unfold sent_texts. apply flat_map_app. Qed.

Lemma sent_texts_quiet evs :
  forallb (fun e => negb (is_send_post e)) evs = true -> sent_texts evs = [].
Proof.
  induction evs as [|e evs IH]; simpl; [reflexivity|].
  intros H. apply andb_true_iff in H. destruct H as [He Hr].
  destruct e; try discriminate; simpl; auto.
Qed.

Lemma sent_texts_in evs t e : In (EvSendPost t e) evs -> In t (sent_texts evs).
Proof.
  intros H. unfold sent_texts. apply in_flat_map.
  exists (EvSendPost t e). split; [assumption | now left].
Qed.

(** What one pass of the loop body adds to the history, for an entry
    that reads. *)
Lemma process_item_run last_bsky item h rss_time title_text item_link rich_text :
  read_item item = Ok (rss_time, title_text, item_link, rich_text) ->
  exists evs,
    process_item last_bsky item h = (Ok tt, h ++ evs) /\
    sent_texts evs = (if (last_bsky <? rss_time)%Z then [rich_text] else []) /\
    ((exists t e, In (EvSendPost t e) evs) <-> (last_bsky < rss_time)%Z).
Proof.
  intros R. destruct (last_bsky <? rss_time)%Z eqn:Hgate.
  - destruct (compose_embed_run title_text item_link h)
      as [md [embed [evs [_ [C [Q _]]]]]].
    destruct (process_item_new last_bsky item h R Hgate) as [embed' [h' [C' P]]].
    rewrite C in C'. injection C' as <- <-.
    eexists. split.
    + rewrite P, <- app_assoc. reflexivity.
    + split.
      * rewrite sent_texts_app. cbn [app].
        change (sent_texts (EvHttpGet item_link :: evs)) with (sent_texts evs).
        now rewrite (sent_texts_quiet evs Q).
      * split; [intros _; now apply Z.ltb_lt|].
        intros _. do 2 eexists. apply in_or_app. right. now left.
  - exists []. rewrite app_nil_r. split; [now apply (process_item_old last_bsky item h R)|].
    split; [reflexivity|]. split.
    + intros [t [e []]].
    + intros H. apply Z.ltb_lt in H. congruence.
Qed.

(** Whatever the entry, a pass only adds calls to the history. *)
Lemma process_item_extends last_bsky item : extends (process_item last_bsky item).
Proof.
  intros h. destruct (read_item item) as [[[[rss_time title_text] item_link] rich_text]|e]
    eqn:R.
  - destruct (process_item_run last_bsky item h R) as [evs [P _]]. eauto.
  - exists (Raise e), []. rewrite app_nil_r. now apply process_item_raises.
Qed.

(** The loop over entries that all read: it ends, and the texts it
    submits are those of the entries newer than the marker. *)
Lemma for_each_process_item last_bsky entries :
  Forall (fun item => is_ok (read_item item) = true) entries ->
  forall h,
  exists evs,
    for_each (process_item last_bsky) entries h = (Ok tt, h ++ evs) /\
    sent_texts evs = texts_due last_bsky entries.
Proof.
  induction 1 as [|item entries Hitem _ IH]; intros h.
  - exists []. now rewrite app_nil_r.
  - destruct (read_item item) as [[[[rss_time title_text] item_link] rich_text]|e]
      eqn:R; [|discriminate].
    destruct (process_item_run last_bsky item h R) as [evs1 [P [S1 _]]].
    destruct (IH (h ++ evs1)) as [evs2 [F S2]].
    exists (evs1 ++ evs2). cbn [for_each]. unfold bindM. rewrite P, F.
    rewrite app_assoc. split; [reflexivity|].
    rewrite sent_texts_app, S1, S2. unfold texts_due. cbn [flat_map]. now rewrite R.
Qed.

(** The loop stops at the first entry that does not read: its exception
    leaves the loop after the posts of the entries before it. *)
Lemma for_each_process_item_stops last_bsky good bad rest e :
  Forall (fun item => is_ok (read_item item) = true) good ->
  read_item bad = Raise e ->
  forall h,
  exists evs,
    for_each (process_item last_bsky) (good ++ bad :: rest) h = (Raise e, h ++ evs) /\
    sent_texts evs = texts_due last_bsky good.
Proof.
  intros Hgood Hbad. induction Hgood as [|item good Hitem _ IH]; intros h.
  - exists []. rewrite app_nil_r. cbn [app for_each]. unfold bindM.
    now rewrite (process_item_raises last_bsky bad h Hbad).
  - destruct (read_item item) as [[[[rss_time title_text] item_link] rich_text]|e']
      eqn:R; [|discriminate].
    destruct (process_item_run last_bsky item h R) as [evs1 [P [S1 _]]].
    destruct (IH (h ++ evs1)) as [evs2 [F S2]].
    exists (evs1 ++ evs2). cbn [app for_each]. unfold bindM. rewrite P, F.
    rewrite app_assoc. split; [reflexivity|].
    rewrite sent_texts_app, S1, S2. unfold texts_due. cbn [flat_map]. now rewrite R.
Qed.

Lemma for_each_extends last_bsky entries : extends (for_each (process_item last_bsky) entries).
Proof.
  induction entries as [|item entries IH]; cbn [for_each].
  - apply extends_ret.
  - apply extends_bind; [apply process_item_extends | intros _; exact IH].
Qed.

(* ===================================================================== *)
(** * C1, C5, C6, C8: the gate, the embed and the submission *)
(* ===================================================================== *)

Lemma last_top_level_none feed :
  (forall titem, In titem feed -> reason titem <> None \/ reply titem <> None) ->
  last_top_level feed = epoch.
Proof.
  induction feed as [|titem feed IH]; intros H; simpl; [reflexivity|].
  destruct (H titem (or_introl eq_refl)) as [R|R].
  - destruct (reason titem); [|congruence]. simpl. apply IH. intros x Hx. apply H. now right.
  - destruct (reply titem); [|congruence]. rewrite andb_false_r.
    apply IH. intros x Hx. apply H. now right.
Qed.

Lemma last_top_level_first before titem after :
  (forall x, In x before -> reason x <> None \/ reply x <> None) ->
  reason titem = None -> reply titem = None ->
  last_top_level (before ++ titem :: after) = created_at titem.
Proof.
  intros H R1 R2. induction before as [|x before IH]; simpl.
  - now rewrite R1, R2.
  - destruct (H x (or_introl eq_refl)) as [R|R].
    + destruct (reason x); [|congruence]. simpl. apply IH. intros y Hy. apply H. now right.
    + destruct (reply x); [|congruence]. rewrite andb_false_r.
      apply IH. intros y Hy. apply H. now right.
Qed.


(** C5.  The embed composed for an entry, from its sanitized title and
    its link: the image exactly when the metadata names a preview image
    that was fetched and uploaded, its alt text being the title, or the
    page title when the title is empty, or ["Preview image"] when both
    are; otherwise the link card exactly when the metadata has a
    non-empty title or a non-empty description, the card's title being the
    page title, or ["Link"] when there is none, and its description the
    page description, or [""] when there is none; otherwise no embed.  An
    entry that passes the gate is posted with that embed. *)
Theorem embed_selection :
  forall (title_text item_link : str) (h : history),
    exists md embed h',
      fetch_link_metadata item_link h = (Ok md, h ++ [EvHttpGet item_link]) /\
      compose_embed title_text item_link h = (Ok embed, h') /\
      (forall last_bsky item rss_time rich_text,
          read_item item = Ok (rss_time, title_text, item_link, rich_text) ->
          (last_bsky < rss_time)%Z ->
          process_item last_bsky item h = (Ok tt, h' ++ [EvSendPost rich_text embed])) /\
      (forall blob,
          preview_uploaded (h ++ [EvHttpGet item_link]) md blob ->
          exists alt_text,
            embed = Some (EmbedImages [{| alt := alt_text; image := blob |}]) /\
            (title_text <> [] -> alt_text = title_text) /\
            (title_text = [] ->
             forall t, meta_title md = Some t -> t <> [] -> alt_text = t) /\
            (title_text = [] -> ~ non_empty (meta_title md) ->
             alt_text = py "Preview image")) /\
      ((exists imgs, embed = Some (EmbedImages imgs)) ->
       exists blob, preview_uploaded (h ++ [EvHttpGet item_link]) md blob) /\
      ((forall blob, ~ preview_uploaded (h ++ [EvHttpGet item_link]) md blob) ->
       (non_empty (meta_title md) \/ non_empty (meta_description md) ->
        exists card,
          embed = Some (EmbedExternal card) /\
          uri card = item_link /\ thumb card = None /\
          (forall t, meta_title md = Some t -> t <> [] -> external_title card = t) /\
          (~ non_empty (meta_title md) -> external_title card = py "Link") /\
          (forall d, meta_description md = Some d -> d <> [] ->
                     external_description card = d) /\
          (~ non_empty (meta_description md) -> external_description card = [])) /\
       (~ non_empty (meta_title md) -> ~ non_empty (meta_description md) ->
        embed = None)).
Proof.
  intros title_text item_link h.
  destruct (compose_embed_run title_text item_link h)
    as [md [embed [evs [F [C [_ [Himg [Hinv Hcard]]]]]]]].
  exists md, embed. eexists. split; [exact F|]. split; [exact C|].
  split; [|split; [|split; [exact Hinv|]]].
  - intros last_bsky item rss_time rich_text R Hlt. apply Z.ltb_lt in Hlt.
    destruct (process_item_new last_bsky item h R Hlt) as [embed' [h' [C' P]]].
    rewrite C in C'. injection C' as <- <-. exact P.
  - intros blob Hup. eexists. split; [exact (Himg blob Hup)|]. split; [|split].
    + intros Hne. now apply or_else_non_empty.
    + intros -> t Ht Hne. rewrite or_else_default.
      * now apply or_else_non_empty.
      * intros [s [[= <-] Hs]]. congruence.
    + intros -> Hno. rewrite or_else_default.
      * now apply or_else_default.
      * intros [s [[= <-] Hs]]. congruence.
  - intros Hnot. rewrite (Hcard Hnot). unfold link_card. split.
    + intros Hsome.
      assert (T : truthy (meta_title md) || truthy (meta_description md) = true).
      { apply orb_true_iff. destruct Hsome as [H|H]; [left | right];
          now apply truthy_non_empty. }
      rewrite T. eexists. split; [reflexivity|]. cbn.
      split; [reflexivity|]. split; [reflexivity|]. split; [|split; [|split]].
      * intros t Ht Hne. now apply or_else_non_empty.
      * apply or_else_default.
      * intros d Hd Hne. now apply or_else_non_empty.
      * apply or_else_default.
    + intros H1 H2.
      assert (T : truthy (meta_title md) || truthy (meta_description md) = false).
      { apply orb_false_iff. split.
        - destruct (truthy (meta_title md)) eqn:E; [|reflexivity].
          apply truthy_non_empty in E. contradiction.
        - destruct (truthy (meta_description md)) eqn:E; [|reflexivity].
          apply truthy_non_empty in E. contradiction. }
      now rewrite T.
Qed.

Lemma fetch_fails_iff url h e :
  fetch_fails h url e <-> fst (fetch_link_metadata_body url h) = Raise e.
Proof.
  unfold fetch_fails, fetch_link_metadata_body, bindM, http_get, lift, ret.
  destruct (httpx_get h url) as [r|e1] eqn:G.
  - destruct (raise_for_status r) as [[]|e2] eqn:S.
    + destruct (BeautifulSoup (text r)) as [soup|e3] eqn:B; simpl.
      * split; [|discriminate].
        intros [H|[[r' [H1 H2]]|[r' [H1 [H2 H3]]]]]; try congruence.
      * split.
        -- intros [H|[[r' [H1 H2]]|[r' [H1 [H2 H3]]]]]; congruence.
        -- intros [= <-]. right. right. eauto.
    + simpl. split.
      * intros [H|[[r' [H1 H2]]|[r' [H1 [H2 H3]]]]]; congruence.
      * intros [= <-]. right. left. eauto.
  - simpl. split.
    + intros [H|[[r' [H1 H2]]|[r' [H1 [H2 H3]]]]]; congruence.
    + intros [= <-]. now left.
Qed.

(** C6.  The fetcher never raises.  When the page cannot be fetched, is
    answered with an error status or cannot be parsed, it returns the empty
    metadata; the embed composed from it is none, after the one request
    for the page, and an entry that passes the gate is then posted with no
    embed. *)
Theorem fetch_link_metadata_degrades :
  forall (url : str) (h : history),
    (exists md, fetch_link_metadata url h = (Ok md, h ++ [EvHttpGet url])) /\
    (forall e, fetch_fails h url e <-> fst (fetch_link_metadata_body url h) = Raise e) /\
    (forall e,
        fetch_fails h url e ->
        fetch_link_metadata url h = (Ok empty_metadata, h ++ [EvHttpGet url]) /\
        (forall title_text,
            compose_embed title_text url h = (Ok None, h ++ [EvHttpGet url])) /\
        (forall last_bsky item rss_time title_text rich_text,
            read_item item = Ok (rss_time, title_text, url, rich_text) ->
            (last_bsky < rss_time)%Z ->
            process_item last_bsky item h
            = (Ok tt, h ++ [EvHttpGet url; EvSendPost rich_text None]))).
Proof.
  intros url h. split; [apply fetch_link_metadata_run|].
  split; [intros e; apply fetch_fails_iff|].
  intros e Hfail. pose proof (fetch_link_metadata_fails Hfail) as F.
  assert (C0 : forall title_text,
             compose_embed title_text url h = (Ok None, h ++ [EvHttpGet url])).
  { intros title_text. unfold compose_embed, bindM. rewrite F. reflexivity. }
  split; [exact F|]. split; [exact C0|].
  intros last_bsky item rss_time title_text rich_text R Hlt. apply Z.ltb_lt in Hlt.
  destruct (process_item_new last_bsky item h R Hlt) as [embed [h' [C P]]].
  rewrite C0 in C. injection C as <- <-. rewrite P, <- app_assoc. reflexivity.
Qed.


(* ===================================================================== *)
(** * C9: nothing happens before the login succeeds *)
(* ===================================================================== *)

Lemma extends_main_tail feed_url bsky_handle :
  extends
    (bindM (get_last_bsky bsky_handle) (fun last_bsky =>
     bindM (http_get httpx_get feed_url) (fun response =>
     bindM (lift (raise_for_status response)) (fun _ =>
     bindM (lift (decode_feed charset_best (content response))) (fun feed_content =>
     bindM (lift (fastfeedparser_parse feed_content)) (fun entries =>
     bindM (for_each (process_item last_bsky) entries) (fun _ => ret true))))))).
Proof.
  apply extends_bind.
  { apply extends_bind; [|intros; apply extends_ret].
    intros h. unfold get_author_feed. eauto. }
  intros last_bsky. apply extends_bind; [intros h; unfold http_get; eauto|].
  intros response. apply extends_bind; [apply extends_lift|]. intros _.
  apply extends_bind; [apply extends_lift|]. intros feed_content.
  apply extends_bind; [apply extends_lift|]. intros entries.
  apply extends_bind; [|intros; apply extends_ret].
  apply for_each_extends.
Qed.

(** C9.  Started with a delay of 60 seconds, the loop makes [n] failed
    attempts, sleeps [delay k] seconds after the failed attempt [k], and
    leaves only through a login that succeeded; [main] makes no other call
    before that login.  The delays start at 60, grow by 60 while below 600
    and stay at 600 from then on. *)
Theorem login_backoff :
  forall (fuel : nat) (feed_url bsky_handle bsky_username bsky_password : str)
         (h : history),
    exists n r rest,
      (n <= fuel)%nat /\
      login_loop fuel bsky_username bsky_password 60 h
      = (Ok (n <? fuel)%nat,
         h ++ failed_attempts bsky_username bsky_password n
           ++ (if (n <? fuel)%nat
               then [EvLogin bsky_username bsky_password true] else [])) /\
      (forall j, (j < n)%nat ->
         is_ok (client_login (h ++ failed_attempts bsky_username bsky_password j)
                  bsky_username bsky_password) = false) /\
      ((n < fuel)%nat ->
         is_ok (client_login (h ++ failed_attempts bsky_username bsky_password n)
                  bsky_username bsky_password) = true) /\
      main fuel feed_url bsky_handle bsky_username bsky_password h
      = (r, h ++ failed_attempts bsky_username bsky_password n
              ++ (if (n <? fuel)%nat
                  then EvLogin bsky_username bsky_password true :: rest else [])) /\
      ((n <? fuel)%nat = false -> r = Ok false) /\
      (forall k,
          (60 <= delay k <= 600 /\ delay k <= delay (S k) /\
           (delay k = 600 -> delay (S k) = 600) /\
           (delay k < 600 -> delay (S k) = delay k + 60))%Z).
Proof.
  intros fuel feed_url bsky_handle u p h.
  destruct (login_loop_from client_login u p fuel 0 h) as [n [Hn [E [Hfail Hok]]]].
  change (delay 0) with 60%Z in E.
  change (failed_attempts u p 0) with (@nil event) in E.
  rewrite app_nil_r in E. cbn [Nat.add] in *.
  destruct (n <? fuel)%nat eqn:Lt.
  - destruct (extends_main_tail feed_url bsky_handle
                (h ++ failed_attempts u p n ++ [EvLogin u p true]))
      as [r [rest T]].
    exists n, r, rest. rewrite Lt.
    split; [exact Hn|]. split; [exact E|]. split; [exact Hfail|].
    split; [exact Hok|]. split; [|split; [discriminate | apply delay_bounds]].
    unfold main. unfold bindM at 1. rewrite E, T.
    rewrite <- !app_assoc. reflexivity.
  - exists n, (Ok false), []. rewrite Lt.
    split; [exact Hn|]. split; [exact E|]. split; [exact Hfail|].
    split; [exact Hok|]. split; [|split; [reflexivity | apply delay_bounds]].
    unfold main. unfold bindM at 1. rewrite E. reflexivity.
Qed.

(* ===================================================================== *)
(** * More on the driver: images, metadata, errors and a whole run *)
(* ===================================================================== *)

Lemma get_image_from_url_cases url alt_text h :
  exists img evs,
    get_image_from_url url alt_text h = (Ok img, h ++ EvHttpGet url :: evs) /\
    (evs = [] \/
     exists r, httpx_get h url = Ok r /\ status_code r = 200%Z /\
               evs = [EvUploadBlob (content r)]) /\
    (forall blob, img = Some {| alt := alt_text; image := blob |} <->
                  image_uploaded h url blob) /\
    (img = None <-> forall blob, ~ image_uploaded h url blob).
Proof.
  unfold get_image_from_url, try_exceptM, bindM, http_get, upload_blob, ret,
    image_uploaded.
  destruct (httpx_get h url) as [r|e] eqn:G.
  - destruct (status_code r =? 200)%Z eqn:S; simpl.
    + apply Z.eqb_eq in S.
      destruct (client_upload_blob (h ++ [EvHttpGet url]) (content r)) as [blob|e] eqn:U.
      * exists (Some {| alt := alt_text; image := blob |}), [EvUploadBlob (content r)].
        rewrite <- app_assoc. split; [reflexivity|]. split; [right; eauto|]. split.
        -- intros blob'. split.
           ++ intros [= <-]. eauto.
           ++ intros [r' [G' [_ U']]]. congruence.
        -- split; [discriminate|]. intros H. exfalso. apply (H blob). eauto.
      * exists None, [EvUploadBlob (content r)]. simpl.
        rewrite <- app_assoc. split; [reflexivity|]. split; [right; eauto|]. split.
        -- intros blob'. split; [discriminate|].
           intros [r' [G' [_ U']]]. congruence.
        -- split; [|reflexivity]. intros _ blob' [r' [G' [_ U']]]. congruence.
    + apply Z.eqb_neq in S. exists None, [].
      split; [reflexivity|]. split; [now left|]. split.
      * intros blob'. split; [discriminate|]. intros [r' [G' [S' _]]]. congruence.
      * split; [|reflexivity]. intros _ blob' [r' [G' [S' _]]]. congruence.
  - simpl. exists None, []. split; [reflexivity|]. split; [now left|]. split.
    + intros blob'. split; [discriminate|]. intros [r' [G' _]]. congruence.
    + split; [|reflexivity]. intros _ blob' [r' [G' _]]. congruence.
Qed.

(** X11.  [get_image_from_url] never raises.  It makes one request, and one
    upload only when the answer has status 200; it returns the image, with
    the alt text it was given, exactly when the request was answered with
    status 200 and the upload succeeded, and [None] otherwise. *)
Theorem get_image_from_url_outcome :
  forall (url alt_text : str) (h : history),
    exists img evs,
      get_image_from_url url alt_text h = (Ok img, h ++ EvHttpGet url :: evs) /\
      (evs = [] \/
       exists r, httpx_get h url = Ok r /\ status_code r = 200%Z /\
                 evs = [EvUploadBlob (content r)]) /\
      (forall blob, img = Some {| alt := alt_text; image := blob |} <->
                    image_uploaded h url blob) /\
      (img = None <-> forall blob, ~ image_uploaded h url blob).
Proof. exact get_image_from_url_cases. Qed.

(** X12.  Composing the embed of an entry costs one request for the page,
    then, only when the metadata names an image, one request for that
    image and at most one upload; it never raises and never posts. *)
Theorem compose_embed_calls :
  forall (title_text : str) (item_link : str) (h : history),
    exists md embed evs,
      fetch_link_metadata item_link h = (Ok md, h ++ [EvHttpGet item_link]) /\
      compose_embed title_text item_link h
      = (Ok embed, h ++ EvHttpGet item_link :: evs) /\
      (truthy (meta_image md) = false -> evs = []) /\
      (truthy (meta_image md) = true ->
       exists url, meta_image md = Some url /\
                   (evs = [EvHttpGet url] \/
                    exists data, evs = [EvHttpGet url; EvUploadBlob data])).
Proof.
  intros title_text item_link h.
  destruct (fetch_link_metadata_run item_link h) as [md E].
  exists md. unfold compose_embed, bindM. rewrite E.
  destruct (meta_image md) as [[|c url]|] eqn:I.
  - eexists. exists []. unfold ret. repeat split; auto. discriminate.
  - destruct (get_image_from_url_cases (c :: url)
                (or_else (Some title_text) (or_else (meta_title md) (py "Preview image")))
                (h ++ [EvHttpGet item_link]))
      as [img [evs [G [Hevs _]]]].
    rewrite G. unfold ret. rewrite <- app_assoc. cbn [app].
    eexists. exists (EvHttpGet (c :: url) :: evs). split; [reflexivity|].
    split; [reflexivity|]. split; [discriminate|].
    intros _. exists (c :: url). split; [reflexivity|].
    destruct Hevs as [->|[r [_ [_ ->]]]]; [now left | right; eauto].
  - eexists. exists []. unfold ret. repeat split; auto. discriminate.
Qed.

(** X13.  When the page is fetched and parsed, the metadata always has a
    title and a description (strings, possibly empty).  The Open Graph tag
    wins over the fallback tag even when it has no [content] attribute: the
    title is then the tag's own text and the image is absent. *)
Theorem fetch_link_metadata_fields :
  forall (url : str) (h : history) (r : Response) (soup : Soup),
    httpx_get h url = Ok r ->
    raise_for_status r = Ok tt ->
    BeautifulSoup (text r) = Ok soup ->
    exists md,
      fetch_link_metadata url h = (Ok md, h ++ [EvHttpGet url]) /\
      meta_title md <> None /\ meta_description md <> None /\
      (forall t, soup_find soup (MetaProperty (py "og:title")) = Some t ->
                 meta_title md = Some (match tag_content t with
                                       | Some c => c
                                       | None => tag_text t
                                       end)) /\
      (soup_find soup (MetaProperty (py "og:title")) = None ->
       soup_find soup (TagNamed (py "title")) = None ->
       meta_title md = Some []) /\
      (forall t, soup_find soup (MetaProperty (py "og:description")) = Some t ->
                 meta_description md = Some (match tag_content t with
                                             | Some c => c
                                             | None => []
                                             end)) /\
      (forall t, soup_find soup (MetaProperty (py "og:image")) = Some t ->
                 meta_image md = tag_content t) /\
      (soup_find soup (MetaProperty (py "og:image")) = None ->
       forall t, soup_find soup (MetaName (py "twitter:image")) = Some t ->
                 meta_image md = tag_content t) /\
      (soup_find soup (MetaProperty (py "og:image")) = None ->
       soup_find soup (MetaName (py "twitter:image")) = None ->
       meta_image md = None).
Proof.
  intros url h r soup G S B.
  unfold fetch_link_metadata, try_exceptM, fetch_link_metadata_body, bindM,
    http_get, lift, ret.
  rewrite G, S, B. eexists. split; [reflexivity|]. cbn [meta_title meta_description meta_image].
  split; [discriminate|]. split; [discriminate|]. split.
  { intros t ->. reflexivity. }
  split. { intros -> ->. reflexivity. }
  split. { intros t ->. reflexivity. }
  split. { intros t ->. reflexivity. }
  split. { intros -> t ->. reflexivity. }
  intros -> ->. reflexivity.
Qed.



(** X16.  The number of attempts the model allows does not matter.  When
    the login fails [n] times and then succeeds, the loop run for any
    larger number of attempts makes these [n] failed attempts, with their
    sleeps, and leaves after the successful one. *)
Theorem login_loop_ends :
  forall (bsky_username bsky_password : str) (h : history) (n : nat),
    (forall j, (j < n)%nat ->
       is_ok (client_login (h ++ failed_attempts bsky_username bsky_password j)
                bsky_username bsky_password) = false) ->
    is_ok (client_login (h ++ failed_attempts bsky_username bsky_password n)
             bsky_username bsky_password) = true ->
    forall fuel, (n < fuel)%nat ->
      login_loop fuel bsky_username bsky_password 60 h
      = (Ok true,
         h ++ failed_attempts bsky_username bsky_password n
           ++ [EvLogin bsky_username bsky_password true]).
Proof.
  intros u p h n Hfail Hok fuel Hlt.
  destruct (login_loop_from client_login u p fuel 0 h) as [m [Hm [E [Hf Ho]]]].
  change (delay 0) with 60%Z in E.
  change (failed_attempts u p 0) with (@nil event) in E.
  rewrite app_nil_r in E. cbn [Nat.add] in *.
  assert (m = n).
  { destruct (Nat.lt_trichotomy m n) as [Lt|[Eq|Gt]]; [|exact Eq|].
    - rewrite (Hfail m Lt) in Ho. assert (m < fuel)%nat by lia.
      specialize (Ho H). discriminate.
    - rewrite (Hf n Gt) in Hok. discriminate. }
  subst m. rewrite E.
  replace (n <? fuel)%nat with true by (symmetry; now apply Nat.ltb_lt).
  reflexivity.
Qed.

End DriverFacts.


(* ===================================================================== *)
(** * The run of [main] in the small world of [Scenario] *)
(* ===================================================================== *)

Example scenario_run :
  Scenario.run
  = (Ok true,
     [ EvLogin (py "me") (py "secret") false; EvSleep 60;
       EvLogin (py "me") (py "secret") false; EvSleep 120;
       EvLogin (py "me") (py "secret") true;
       EvGetAuthorFeed (py "me.test");
       EvHttpGet Scenario.feed_url;
       EvHttpGet (py "http://x.test/new");
       EvSendPost
         [ PlainText (py "New ");
           Hashtag (py "#post") (py "post");
           PlainText [NL];
           Link (py "http://x.test/new") (py "http://x.test/new") ]
         None ]).
Proof. vm_compute. reflexivity. Qed.

Example scenario_old_title :
  process_title Scenario.html5 (fun t => Ok t) (py "Old &amp; gone") = py "Old & gone".
Proof. vm_compute. reflexivity. Qed.

Example preview_image :
  Preview.embed_of 200
  = (Ok (Some (EmbedImages [{| alt := py "New"; image := py "blob" |}])),
     [EvHttpGet (py "http://x.test/new"); EvHttpGet (py "http://x.test/i.png");
      EvUploadBlob []]).
Proof. vm_compute. reflexivity. Qed.

Example preview_link_card :
  Preview.embed_of 404
  = (Ok (Some (EmbedExternal {| uri := py "http://x.test/new";
                                external_title := py "Page";
                                external_description := [];
                                thumb := None |})),
     [EvHttpGet (py "http://x.test/new"); EvHttpGet (py "http://x.test/i.png")]).
Proof. vm_compute. reflexivity. Qed.

(* ===================================================================== *)
(** * The embedding on concrete inputs *)
(* ===================================================================== *)

Example re_split_hello :
  re_split (py "Hello #world http://x.test")
  = [py "Hello "; py "#world"; py " http://x.test"].
Proof. reflexivity. Qed.

Example re_split_double_hash : re_split (py "##a") = [py "#"; py "#a"; []].
Proof. reflexivity. Qed.

Example re_split_adjacent :
  re_split (py "a#b1#c d") = [py "a"; py "#b1"; []; py "#c"; py " d"].
Proof. vm_compute. reflexivity. Qed.

Example make_rich_title_and_link :
  make_rich utf8_builder (py "Title" ++ [NL] ++ py "http://example.com/a" ++ [NL])
  = Ok [PlainText (py "Title" ++ [NL]);
        Link (py "http://example.com/a") (py "http://example.com/a");
        PlainText [NL]].
Proof. reflexivity. Qed.

Example make_rich_hashtag :
  make_rich utf8_builder (py "Hello #world http://x.test")
  = Ok [PlainText (py "Hello "); Hashtag (py "#world") (py "world");
        PlainText (py " http://x.test" ++ [NL])].
Proof. reflexivity. Qed.

(** A title that holds a surrogate code point: the builder cannot encode
    it, [make_rich] raises, and so does the loop body, whatever the time
    of the entry; the entry after it is not reached. *)
Example make_rich_surrogate :
  make_rich utf8_builder (py "a" ++ [55357] ++ [NL] ++ py "http://x.test/a")
  = Raise UnicodeEncodeError.
Proof. reflexivity. Qed.

Example loop_stops_at_surrogate :
  for_each
    (process_item Scenario.html5 (fun t => Ok t) (fun _ => Ok tt) (fun _ _ => None)
       Scenario.raise_for_status utf8_builder (fun _ _ => Raise RemoteError)
       (fun _ _ _ => Ok tt) Scenario.httpx_get 100%Z)
    [ {| title := Ok (py "First"); link := Ok (py "http://x.test/1");
         published := Ok 150%Z |};
      {| title := Ok [55357]; link := Ok (py "http://x.test/2");
         published := Ok 160%Z |};
      {| title := Ok (py "Third"); link := Ok (py "http://x.test/3");
         published := Ok 170%Z |} ] []
  = (Raise UnicodeEncodeError,
     [ EvHttpGet (py "http://x.test/1");
       EvSendPost [ PlainText (py "First" ++ [NL]);
                    Link (py "http://x.test/1") (py "http://x.test/1") ] None ]).
Proof. vm_compute. reflexivity. Qed.

(** An entry with no date: reading its time raises, and the loop is left
    after the post of the entry before it. *)
Example loop_stops_at_undated :
  for_each
    (process_item Scenario.html5 (fun t => Ok t) (fun _ => Ok tt) (fun _ _ => None)
       Scenario.raise_for_status utf8_builder (fun _ _ => Raise RemoteError)
       (fun _ _ _ => Ok tt) Scenario.httpx_get 100%Z)
    [ {| title := Ok (py "First"); link := Ok (py "http://x.test/1");
         published := Ok 150%Z |};
      {| title := Ok (py "Second"); link := Ok (py "http://x.test/2");
         published := Raise AttributeError |} ] []
  = (Raise AttributeError,
     [ EvHttpGet (py "http://x.test/1");
       EvSendPost [ PlainText (py "First" ++ [NL]);
                    Link (py "http://x.test/1") (py "http://x.test/1") ] None ]).
Proof. vm_compute. reflexivity. Qed.

Example unescape_numeric html5 :
  unescape html5 (py "&#38;#38; &#x26;&#X26&#;&#x;& &#38;;&#128;&#xD800;&#1;")
  = Ok (py "&#38; &&&#;&#x;& &;" ++ [8364; 65533]).
Proof. vm_compute. reflexivity. Qed.

Example unescape_named :
  unescape Scenario.html5 (py "&amp;&ampx;&foo;&amp;lt") = Ok (py "&&ampx;&foo;&lt").
Proof. vm_compute. reflexivity. Qed.

Example fix_encoding_mojibake html5 :
  process_title html5 (fun t => Ok t) [195; 169] = [233] /\
  process_title html5 (fun t => Ok t) [233] = [233] /\
  process_title html5 (fun t => Ok t) [8364] = [8364].
Proof. repeat split; vm_compute; reflexivity. Qed.

Example utf8_ignore_drops_malformed :
  option_map (utf8_decode Ignore)
    (match Byte.of_N 65, Byte.of_N 226, Byte.of_N 130 with
     | Some a, Some b, Some c => Some [a; b; c; a; c]
     | _, _, _ => None
     end)
  = Some (Ok [65; 65]).
Proof. vm_compute. reflexivity. Qed.

(* ===================================================================== *)
(** * Codecs: what [fix_encoding] and the normalizer rely on *)
(* ===================================================================== *)

(** Decoding bytes as Latin-1 and encoding the text again gives the
    bytes back. *)
Lemma latin1_encode_decode bs : latin1_encode (map Byte.to_N bs) = Ok bs.
Proof.
  induction bs as [|b bs IH]; simpl; [reflexivity|].
  now rewrite Byte.of_to_N, IH.
Qed.

Lemma latin1_encode_raises s e :
  latin1_encode s = Raise e ->
  e = UnicodeEncodeError /\ exists c, In c s /\ 255 < c.
Proof.
  induction s as [|c r IH]; simpl; [discriminate|].
  destruct (Byte.of_N c) as [b|] eqn:B.
  - destruct (latin1_encode r) as [bs|e'] eqn:E; simpl; [discriminate|].
    intros [= <-]. destruct (IH eq_refl) as [-> [c' [Hin Hc]]].
    split; [reflexivity|]. exists c'. auto.
  - intros [= <-]. split; [reflexivity|]. exists c. split; [now left|].
    now apply Byte.of_N_None_iff.
Qed.

Lemma latin1_encode_high s c :
  In c s -> 255 < c -> latin1_encode s = Raise UnicodeEncodeError.
Proof.
  induction s as [|c' r IH]; simpl; [tauto|]. intros [->|Hin] Hc.
  - apply Byte.of_N_None_iff in Hc. now rewrite Hc.
  - destruct (Byte.of_N c'); [|reflexivity]. now rewrite (IH Hin Hc).
Qed.

Ltac utf8_cases :=
  repeat match goal with
         | |- context [if ?c then _ else _] => destruct c
         | |- context [match ?r with [] => _ | _ :: _ => _ end] => destruct r
         end.

(** The strict decoder raises nothing but [UnicodeDecodeError]. *)
Lemma utf8_strict_raises bs : forall e,
  utf8_decode Strict bs = Raise e -> e = UnicodeDecodeError.
Proof.
  remember (length bs) as n eqn:Hn. revert bs Hn.
  induction n as [n IH] using lt_wf_ind. intros bs Hn e.
  destruct bs as [|b0 r0]; [discriminate|]. cbn [utf8_decode].
  utf8_cases;
    try (intros [= <-]; reflexivity);
    match goal with
    | |- bind (utf8_decode Strict ?r) _ = _ -> _ =>
        destruct (utf8_decode Strict r) eqn:D; simpl; [discriminate|];
        intros [= <-]; eapply (IH (length r)); [|reflexivity|exact D];
        subst n; simpl; lia
    end.
Qed.

Lemma utf8_ignore_ok bs : exists s, utf8_decode Ignore bs = Ok s.
Proof.
  remember (length bs) as n eqn:Hn. revert bs Hn.
  induction n as [n IH] using lt_wf_ind. intros bs Hn.
  destruct bs as [|b0 r0]; [now exists []|]. cbn [utf8_decode].
  utf8_cases;
    try (now eexists);
    match goal with
    | |- exists s, bind (utf8_decode Ignore ?r) _ = _ =>
        destruct (IH (length r) ltac:(subst n; simpl; lia) r eq_refl) as [s E];
        rewrite E; simpl; now eexists
    | |- exists s, utf8_decode Ignore ?r = _ =>
        apply (IH (length r)); [subst n; simpl; lia | reflexivity]
    end.
Qed.

Lemma utf8_ignore_agrees bs : forall t,
  utf8_decode Strict bs = Ok t -> utf8_decode Ignore bs = Ok t.
Proof.
  remember (length bs) as n eqn:Hn. revert bs Hn.
  induction n as [n IH] using lt_wf_ind. intros bs Hn t.
  destruct bs as [|b0 r0]; [trivial|]. cbn [utf8_decode].
  utf8_cases;
    try discriminate;
    match goal with
    | |- bind (utf8_decode Strict ?r) _ = _ -> _ =>
        destruct (utf8_decode Strict r) as [t'|] eqn:D; simpl; [|discriminate];
        intros [= <-];
        rewrite (IH (length r) ltac:(subst n; simpl; lia) r eq_refl t' D);
        reflexivity
    end.
Qed.

(** X17.  [content.decode("utf-8", errors="ignore")], the last tier of the
    normalizer, never raises, and on well-formed UTF-8 it returns what the
    strict decoder returns. *)
Theorem utf8_ignore_never_raises :
  forall bs : bytes,
    exists s : str,
      utf8_decode Ignore bs = Ok s /\
      (forall t, utf8_decode Strict bs = Ok t -> s = t).
Proof.
  intros bs. destruct (utf8_ignore_ok bs) as [s E]. exists s.
  split; [exact E|]. intros t H. apply utf8_ignore_agrees in H. congruence.
Qed.

(* ===================================================================== *)
(** * [fix_encoding] *)
(* ===================================================================== *)

Lemma fix_encoding_never_raises_aux text :
  exists t : str,
    fix_encoding text = Ok t /\
    ((exists c, In c text /\ 255 < c) -> t = text).
Proof.
  unfold fix_encoding.
  destruct (latin1_encode text) as [bs|e] eqn:E; simpl.
  - destruct (utf8_decode Strict bs) as [t|e] eqn:D; simpl.
    + exists t. split; [reflexivity|]. intros [c [Hin Hc]].
      rewrite (latin1_encode_high _ Hin Hc) in E. discriminate.
    + apply utf8_strict_raises in D. subst e. simpl. now exists text.
  - apply latin1_encode_raises in E. destruct E as [-> _]. simpl. now exists text.
Qed.

(** X1.  [fix_encoding] never raises; a text with a code point above 255
    cannot be encoded as Latin-1 and is returned unchanged. *)
Theorem fix_encoding_never_raises :
  forall text : str,
    exists t : str,
      fix_encoding text = Ok t /\
      ((exists c, In c text /\ 255 < c) -> t = text).
Proof. exact fix_encoding_never_raises_aux. Qed.

Lemma fix_encoding_repairs_aux bs :
  fix_encoding (map Byte.to_N bs)
  = Ok (match utf8_decode Strict bs with
        | Ok s => s
        | Raise _ => map Byte.to_N bs
        end).
Proof.
  unfold fix_encoding. rewrite latin1_encode_decode. simpl.
  destruct (utf8_decode Strict bs) as [s|e] eqn:D; simpl; [reflexivity|].
  apply utf8_strict_raises in D. now subst e.
Qed.

(** X2.  On text read as Latin-1 from bytes, [fix_encoding] gives the
    UTF-8 reading of these bytes when they are well-formed UTF-8, and the
    text unchanged when they are not. *)
Theorem fix_encoding_repairs :
  forall bs : bytes,
    fix_encoding (map Byte.to_N bs)
    = Ok (match utf8_decode Strict bs with
          | Ok s => s
          | Raise _ => map Byte.to_N bs
          end).
Proof. exact fix_encoding_repairs_aux. Qed.

(* ===================================================================== *)
(** * [process_title] and [is_html] *)
(* ===================================================================== *)

Lemma fix_encoding_ok text : exists t, fix_encoding text = Ok t.
Proof. destruct (fix_encoding_never_raises_aux text) as [t [E _]]. eauto. Qed.

(** X3.  The only step of [process_title] that can fail is the HTML
    parser, which runs only on a title that holds a tag; when it raises the
    title is returned as it was given, and a title with no tag is sanitized
    without the parser. *)
Theorem process_title_fallback :
  forall (html5 : str -> option str) (bs_get_text : str -> result str) (title : str),
    (forall e, process_title_body html5 bs_get_text title = Raise e <->
               is_html title = true /\ bs_get_text title = Raise e) /\
    (forall e, is_html title = true -> bs_get_text title = Raise e ->
               process_title html5 bs_get_text title = title) /\
    (is_html title = false ->
     forall other_parser,
       process_title html5 other_parser title = process_title html5 bs_get_text title).
Proof.
  intros html5 bs_get_text title.
  assert (B : forall e, process_title_body html5 bs_get_text title = Raise e <->
                        is_html title = true /\ bs_get_text title = Raise e).
  { intros e. unfold process_title_body.
    destruct (is_html title).
    - destruct (bs_get_text title) as [t|e'] eqn:G; simpl.
      + destruct (fix_encoding_ok (desescapar_unicode html5 (strip t))) as [t' ->].
        simpl. split; [discriminate | intros [_ H]; discriminate].
      + split; [intros [= <-]; auto | intros [_ H]; exact H].
    - simpl.
      destruct (fix_encoding_ok (desescapar_unicode html5 (strip title))) as [t' ->].
      simpl. split; [discriminate | intros [H _]; discriminate]. }
  split; [exact B|]. split.
  - intros e Hh Hg. unfold process_title.
    now rewrite (proj2 (B e) (conj Hh Hg)).
  - intros Hh other. unfold process_title, process_title_body. now rewrite Hh.
Qed.

(** X4.  A title that is the Latin-1 reading of well-formed UTF-8 bytes,
    with no tag, no [&] and no whitespace at either end, is repaired: the
    sanitizer returns the UTF-8 reading of the bytes. *)
Theorem process_title_repairs_mojibake :
  forall (html5 : str -> option str) (bs_get_text : str -> result str)
         (bs : bytes) (s : str),
    utf8_decode Strict bs = Ok s ->
    is_html (map Byte.to_N bs) = false ->
    existsb (N.eqb AMP) (map Byte.to_N bs) = false ->
    strip (map Byte.to_N bs) = map Byte.to_N bs ->
    process_title html5 bs_get_text (map Byte.to_N bs) = s.
Proof.
  intros html5 bs_get_text bs s D Hh Hamp Hs.
  unfold process_title, process_title_body. rewrite Hh. simpl.
  unfold desescapar_unicode. rewrite Hs.
  rewrite unescape_without_amp by assumption.
  rewrite fix_encoding_repairs_aux, D. reflexivity.
Qed.

Lemma process_title_repairs_mojibake_witness :
  process_title (fun _ => None) (fun t => Ok t)
    (map Byte.to_N [Byte.x43; Byte.x61; Byte.x66; Byte.xc3; Byte.xa9])
  = [67; 97; 102; 233].
Proof.
  apply (process_title_repairs_mojibake (fun _ => None) (fun t => Ok t)
           [Byte.x43; Byte.x61; Byte.x66; Byte.xc3; Byte.xa9]);
    reflexivity.
Defined.

Lemma closes_tag_iff r :
  closes_tag r = true <-> exists b c, r = b ++ GT :: c /\ ~ In NL b.
Proof.
  induction r as [|x r IH]; simpl.
  - split; [discriminate|]. intros [b [c [E _]]]. destruct b; discriminate.
  - destruct (x =? GT) eqn:G.
    + apply N.eqb_eq in G. subst x. split; [|reflexivity].
      intros _. exists [], r. split; [reflexivity | tauto].
    + apply N.eqb_neq in G. destruct (x =? NL) eqn:L.
      * apply N.eqb_eq in L. subst x. split; [discriminate|].
        intros [b [c [E Hb]]]. destruct b as [|y b]; simpl in E.
        -- congruence.
        -- exfalso. apply Hb. left. congruence.
      * apply N.eqb_neq in L. rewrite IH. split.
        -- intros [b [c [-> Hb]]]. exists (x :: b), c. split; [reflexivity|].
           intros [H|H]; [congruence | tauto].
        -- intros [b [c [E Hb]]]. destruct b as [|y b]; simpl in E.
           ++ congruence.
           ++ exists b, c. split; [congruence|].
              intros H. apply Hb. now right.
Qed.

(** X5.  [is_html] holds exactly when the text has a [<] followed, before
    the next newline, by a [>]. *)
Theorem is_html_iff :
  forall title : str,
    is_html title = true <->
    exists a b c, title = a ++ LT :: b ++ GT :: c /\ ~ In NL b.
Proof.
  intros s. induction s as [|x r IH]; simpl.
  - split; [discriminate|]. intros [a [b [c [E _]]]]. destruct a; discriminate.
  - rewrite orb_true_iff, andb_true_iff, IH, closes_tag_iff, N.eqb_eq. split.
    + intros [[-> [b [c [-> Hb]]]]|[a [b [c [-> Hb]]]]].
      * now exists [], b, c.
      * now exists (x :: a), b, c.
    + intros [a [b [c [E Hb]]]]. destruct a as [|y a]; simpl in E.
      * left. split; [congruence|]. exists b, c. split; [congruence | assumption].
      * right. exists a, b, c. split; [congruence | assumption].
Qed.

(* ===================================================================== *)
(** * [make_rich] on the body of a post *)
(* ===================================================================== *)

Lemma split_app sep a b : split sep (a ++ sep :: b) = split sep a ++ split sep b.
Proof.
  induction a as [|c a IH]; simpl.
  - now rewrite N.eqb_refl.
  - destruct (c =? sep); [now rewrite IH|].
    rewrite IH. pose proof (@split_nonempty sep a) as NE.
    destruct (split sep a) as [|l ls]; [congruence | reflexivity].
Qed.

Lemma split_single sep s : ~ In sep s -> split sep s = [s].
Proof.
  induction s as [|c r IH]; simpl; [reflexivity|]. intros H.
  destruct (c =? sep) eqn:E.
  - apply N.eqb_eq in E. subst c. exfalso. apply H. now left.
  - rewrite IH by tauto. reflexivity.
Qed.

Lemma rich_runs_app a b : rich_runs (a ++ NL :: b) = rich_runs a ++ rich_runs b.
Proof. unfold rich_runs. rewrite split_app. apply flat_map_app. Qed.

Lemma make_rich_app_aux bc a b :
  make_rich bc (a ++ NL :: b)
  = bind (make_rich bc a) (fun runs_a =>
    bind (make_rich bc b) (fun runs_b => Ok (runs_a ++ runs_b))).
Proof.
  rewrite !make_rich_calls, rich_runs_app, run_calls_app.
  destruct (run_calls bc [] (rich_runs a)) as [runs_a|e]; cbn [bind]; [|reflexivity].
  apply run_calls_shift.
Qed.

(** X7.  Tokenization is local to lines: the runs of two texts joined by
    a newline are the runs of the first followed by the runs of the
    second; and [make_rich] raises on the joined text exactly when it
    raises on one of the two, with the exception of the first that
    does. *)
Theorem make_rich_app :
  forall (builder_check : run -> result unit) (a b : str),
    rich_runs (a ++ NL :: b) = rich_runs a ++ rich_runs b /\
    make_rich builder_check (a ++ NL :: b)
    = bind (make_rich builder_check a) (fun runs_a =>
      bind (make_rich builder_check b) (fun runs_b => Ok (runs_a ++ runs_b))).
Proof.
  intros bc a b. split; [apply rich_runs_app | apply make_rich_app_aux].
Qed.

(** X8.  The body [main] posts is the title, a newline and the link.  When
    the link starts with [http] and holds no newline, [make_rich] builds
    the rich text of the title and then makes the one call
    [link(url, url)] with the trimmed link: the rich text it returns is
    that of the title followed by that link run, and displays the title's
    text followed by the trimmed link; it raises when the title's text or
    the link is refused by the builder. *)
Theorem post_text_ends_with_link :
  forall (builder_check : run -> result unit) (title_text item_link : str),
    startswith item_link (py "http") = true ->
    ~ In NL item_link ->
    make_rich builder_check (title_text ++ [NL] ++ item_link)
    = bind (make_rich builder_check title_text) (fun runs =>
        tb_link builder_check runs (strip item_link) (strip item_link)) /\
    (forall rich_text,
        make_rich builder_check (title_text ++ [NL] ++ item_link) = Ok rich_text ->
        exists runs,
          make_rich builder_check title_text = Ok runs /\
          rich_text = runs ++ [Link (strip item_link) (strip item_link)] /\
          build_text rich_text = build_text runs ++ strip item_link) /\
    (forall runs,
        make_rich builder_check title_text = Ok runs ->
        builder_check (Link (strip item_link) (strip item_link)) = Ok tt ->
        make_rich builder_check (title_text ++ [NL] ++ item_link)
        = Ok (runs ++ [Link (strip item_link) (strip item_link)])).
Proof.
  intros bc title_text item_link Hhttp Hnl.
  assert (L : make_rich bc item_link
              = tb_link bc [] (strip item_link) (strip item_link)).
  { unfold make_rich. rewrite split_single by assumption.
    cbn [for_result]. unfold add_line. rewrite Hhttp.
    apply bind_ok. }
  assert (E : make_rich bc (title_text ++ [NL] ++ item_link)
              = bind (make_rich bc title_text) (fun runs =>
                  tb_link bc runs (strip item_link) (strip item_link))).
  { cbn [app]. rewrite make_rich_app_aux, L.
    destruct (make_rich bc title_text) as [runs|e]; cbn [bind]; [|reflexivity].
    unfold tb_link, tb_call.
    destruct (bc (Link (strip item_link) (strip item_link))); reflexivity. }
  split; [exact E|]. split.
  - intros rich_text. rewrite E.
    destruct (make_rich bc title_text) as [runs|e]; cbn [bind]; [|discriminate].
    unfold tb_link, tb_call.
    destruct (bc (Link (strip item_link) (strip item_link))); cbn [bind]; [|discriminate].
    intros [= <-]. exists runs. split; [reflexivity|]. split; [reflexivity|].
    rewrite build_text_app. unfold build_text at 2. simpl. now rewrite app_nil_r.
  - intros runs R A. rewrite E, R. cbn [bind]. unfold tb_link, tb_call.
    now rewrite A.
Qed.

Lemma post_text_ends_with_link_witness :
  make_rich utf8_builder (py "Title #tag" ++ [NL] ++ py "http://x.test/a")
  = Ok [ PlainText (py "Title "); Hashtag (py "#tag") (py "tag"); PlainText [NL];
         Link (py "http://x.test/a") (py "http://x.test/a") ].
Proof.
  apply (proj2 (proj2 (@post_text_ends_with_link utf8_builder (py "Title #tag")
                         (py "http://x.test/a") eq_refl
                         ltac:(vm_compute; intuition discriminate)))
           [ PlainText (py "Title "); Hashtag (py "#tag") (py "tag"); PlainText [NL] ]).
  - reflexivity.
  - reflexivity.
Defined.

Lemma drop_while_snoc p l c : p c = false -> drop_while p (l ++ [c]) = drop_while p l ++ [c].
Proof.
  intros H. induction l as [|x l IH]; simpl; [now rewrite H|].
  destruct (p x); [exact IH | reflexivity].
Qed.

Lemma rstrip_cons c r : isspace c = false -> rstrip (c :: r) = c :: rstrip r.
Proof.
  intros H. unfold rstrip. simpl. rewrite drop_while_snoc by assumption.
  now rewrite rev_app_distr.
Qed.

Lemma strip_keeps_http line :
  startswith line (py "http") = true -> startswith (strip line) (py "http") = true.
Proof.
  destruct line as [|c1 [|c2 [|c3 [|c4 rest]]]]; try discriminate;
    try (simpl; rewrite ?andb_false_r; discriminate).
  simpl. intros H.
  repeat (apply andb_true_iff in H; destruct H as [? H]).
  repeat match goal with E : (_ =? _) = true |- _ => apply N.eqb_eq in E; subst end.
  unfold strip. rewrite !rstrip_cons by reflexivity. reflexivity.
Qed.

(** X9.  Every link run [make_rich] makes on the builder, and so every
    link run of the rich text it returns, has its target as text, starts
    with [http], holds no newline and has no whitespace at either end. *)
Theorem link_runs_are_urls :
  forall (builder_check : run -> result unit) (content t u : str),
    (In (Link t u) (rich_runs content) \/
     exists runs, make_rich builder_check content = Ok runs /\ In (Link t u) runs) ->
    t = u /\ startswith u (py "http") = true /\ ~ In NL u /\ strip u = u.
Proof.
  intros bc content t u H.
  assert (Hin : In (Link t u) (rich_runs content)).
  { destruct H as [H|[runs [R H]]]; [exact H|].
    apply make_rich_inv in R. destruct R as [<- _]. exact H. }
  clear H. unfold rich_runs in Hin.
  apply in_flat_map in Hin. destruct Hin as [line [Hline Hrun]].
  destruct (startswith line (py "http")) eqn:E.
  - rewrite line_runs_url in Hrun by assumption.
    destruct Hrun as [[= <- <-]|[]]. repeat split.
    + now apply strip_keeps_http.
    + intros H. apply strip_incl in H. now apply (split_no_sep _ _ _ Hline).
    + apply strip_idem.
  - exfalso. now apply (text_line_has_no_link line t u E).
Qed.

Lemma link_runs_are_urls_witness :
  py "http://x.test/a" = py "http://x.test/a" /\
  startswith (py "http://x.test/a") (py "http") = true /\
  ~ In NL (py "http://x.test/a") /\
  strip (py "http://x.test/a") = py "http://x.test/a".
Proof.
  apply (@link_runs_are_urls utf8_builder (py "T" ++ [NL] ++ py "http://x.test/a ")).
  right. eexists. split; [reflexivity|]. right. now left.
Defined.

Lemma strip_length s : (length (strip s) <= length s)%nat.
Proof.
  unfold strip, lstrip, rstrip.
  pose proof (drop_while_length isspace (rev (drop_while isspace (rev s)))) as L1.
  pose proof (drop_while_length isspace (rev s)) as L2.
  rewrite !length_rev in *. lia.
Qed.

Lemma concat_length_le {A} (f g : A -> str) l :
  (forall x, length (f x) <= length (g x))%nat ->
  (length (concat (map f l)) <= length (concat (map g l)))%nat.
Proof.
  intros H. induction l as [|x l IH]; simpl; [lia|].
  rewrite !length_app. specialize (H x). lia.
Qed.

(** X10.  The text of the rich text is never longer than the content plus
    one character (the two lengths [main] logs). *)
Theorem rich_text_length :
  forall (builder_check : run -> result unit) (content : str),
    (length (build_text (rich_runs content)) <= length content + 1)%nat /\
    forall runs,
      make_rich builder_check content = Ok runs ->
      (length (build_text runs) <= length content + 1)%nat.
Proof.
  intros bc content.
  assert (B : (length (build_text (rich_runs content)) <= length content + 1)%nat).
  { unfold rich_runs. rewrite build_text_flat_map.
    assert (L : length (concat (map (fun l => l ++ [NL]) (split NL content)))
                = (length content + 1)%nat).
    { rewrite concat_lines by apply split_nonempty.
      now rewrite join_split, length_app. }
    rewrite <- L. apply concat_length_le. intros line.
    rewrite line_text. destruct (startswith line (py "http")).
    - pose proof (strip_length line). rewrite length_app. simpl. lia.
    - lia. }
  split; [exact B|].
  intros runs R. apply make_rich_inv in R. destruct R as [-> _]. exact B.
Qed.

(** ** A builder that refuses what UTF-8 cannot encode *)

Lemma split_incl sep s : forall l x, In l (split sep s) -> In x l -> In x s.
Proof.
  induction s as [|c r IH]; intros l x; simpl.
  - intros [<-|[]] [].
  - destruct (c =? sep).
    + intros [<-|H] Hx; [destruct Hx | right; eauto].
    + destruct (split sep r) as [|l0 ls] eqn:E.
      * intros [<-|[]] [<-|[]]. now left.
      * intros [<-|H] Hx.
        -- destruct Hx as [<-|Hx]; [now left | right].
           apply (IH l0 x); [now left | assumption].
        -- right. apply (IH l x); [now right | assumption].
Qed.

Lemma encodable_incl a b : (forall x, In x a -> In x b) -> encodable b = true -> encodable a = true.
Proof.
  unfold encodable. intros H Hb. rewrite forallb_forall in *. auto.
Qed.

Lemma encodable_snoc_newline s : encodable s = true -> encodable (s ++ [NL]) = true.
Proof.
  unfold encodable. intros H. rewrite forallb_app.
  apply andb_true_iff. split; [exact H | reflexivity].
Qed.

Lemma utf8_builder_segment len i seg :
  encodable seg = true -> utf8_builder (segment_run len (i, seg)) = Ok tt.
Proof.
  intros H. unfold segment_run.
  set (t := if Nat.eqb i (len - 1) then seg ++ [NL] else seg).
  assert (Ht : encodable t = true).
  { subst t. destruct (Nat.eqb i (len - 1)); [now apply encodable_snoc_newline | exact H]. }
  destruct (startswith t [HASH]); unfold utf8_builder; cbn [display]; now rewrite Ht.
Qed.

(** On a body UTF-8 can encode, this builder raises on no call of
    [make_rich], which returns the runs of the body. *)
Lemma utf8_builder_accepts content :
  encodable content = true -> accepted utf8_builder (rich_runs content).
Proof.
  intros H r Hr. unfold rich_runs in Hr. apply in_flat_map in Hr.
  destruct Hr as [line [Hline Hr]].
  assert (Hl : encodable line = true).
  { revert H. apply encodable_incl. intros x. now apply (split_incl NL content). }
  unfold line_runs in Hr. destruct (startswith line (py "http")).
  - destruct Hr as [<-|[]]. unfold utf8_builder. cbn [display].
    assert (Hs : encodable (strip line) = true).
    { revert Hl. apply encodable_incl. intros x. apply strip_incl. }
    now rewrite Hs.
  - apply in_map_iff in Hr. destruct Hr as [[i seg] [<- Hin]].
    apply utf8_builder_segment. apply in_enumerate_from in Hin.
    revert Hl. apply encodable_incl. intros x Hx.
    rewrite <- (re_split_concat line). apply in_concat. eauto.
Qed.

Lemma make_rich_utf8 content :
  encodable content = true -> make_rich utf8_builder content = Ok (rich_runs content).
Proof. intros H. apply make_rich_ok. now apply utf8_builder_accepts. Qed.

Lemma in_split_cases sep s x :
  In x s -> x = sep \/ exists l, In l (split sep s) /\ In x l.
Proof.
  induction s as [|c r IH]; simpl; [tauto|].
  intros [<-|H].
  - destruct (c =? sep) eqn:E; [left; now apply N.eqb_eq|]. right.
    destruct (split sep r) as [|l0 ls]; eexists; (split; [now left | now left]).
  - destruct (IH H) as [->|[l [Hl Hx]]]; [now left | right].
    destruct (c =? sep); [exists l; split; [now right | assumption]|].
    destruct (split sep r) as [|l0 ls]; [destruct Hl|].
    destruct Hl as [<-|Hl].
    + exists (c :: l0). split; [now left | now right].
    + exists l. split; [now right | assumption].
Qed.

Lemma drop_while_keeps p s x : In x s -> p x = false -> In x (drop_while p s).
Proof.
  induction s as [|c r IH]; simpl; [tauto|]. intros H Hp.
  destruct (p c) eqn:E; [|exact H].
  destruct H as [<-|H]; [congruence | auto].
Qed.

Lemma strip_keeps s x : In x s -> isspace x = false -> In x (strip s).
Proof.
  intros H Hs. unfold strip, lstrip, rstrip.
  apply drop_while_keeps; [|assumption]. apply in_rev. rewrite rev_involutive.
  apply drop_while_keeps; [|assumption]. now apply in_rev in H.
Qed.

Lemma in_build_text x runs : In x (build_text runs) -> exists r, In r runs /\ In x (display r).
Proof.
  unfold build_text. intros H. apply in_concat in H. destruct H as [t [Ht Hx]].
  apply in_map_iff in Ht. destruct Ht as [r [<- Hr]]. eauto.
Qed.

Lemma run_calls_raises bc calls : forall tb e,
  run_calls bc tb calls = Raise e -> exists r, In r calls /\ bc r = Raise e.
Proof.
  induction calls as [|r calls IH]; intros tb e; cbn [run_calls]; [discriminate|].
  unfold tb_call. destruct (bc r) as [[]|e'] eqn:E; cbn [bind].
  - intros H. apply IH in H. destruct H as [r' [Hin Hr']]. exists r'. split; [now right | assumption].
  - intros [= <-]. exists r. split; [now left | assumption].
Qed.

Lemma utf8_builder_refuses r x :
  In x (display r) ->
  ((x <? 55296) || ((57343 <? x) && (x <=? 1114111))) = false ->
  utf8_builder r = Raise UnicodeEncodeError.
Proof.
  intros Hx Hbad.
  assert (E : encodable (display r) = false).
  { destruct (encodable (display r)) eqn:E; [|reflexivity].
    unfold encodable in E. rewrite forallb_forall in E.
    specialize (E x Hx). cbv beta in E. congruence. }
  unfold utf8_builder. now rewrite E.
Qed.

(** With this builder [make_rich] returns exactly on the bodies UTF-8
    can encode, and raises [UnicodeEncodeError] on the others. *)
Lemma make_rich_utf8_cases content :
  make_rich utf8_builder content
  = if encodable content then Ok (rich_runs content) else Raise UnicodeEncodeError.
Proof.
  destruct (encodable content) eqn:E; [now apply make_rich_utf8|].
  destruct (make_rich utf8_builder content) as [runs|e] eqn:R.
  - exfalso. apply make_rich_inv in R. destruct R as [_ Hacc].
    assert (Hx : exists x, In x content /\
               ((x <? 55296) || ((57343 <? x) && (x <=? 1114111))) = false).
    { unfold encodable in E.
      assert (N : existsb (fun c => negb ((c <? 55296) || ((57343 <? c) && (c <=? 1114111))))
                    content = true).
      { clear -E. induction content as [|c r IH]; simpl in *; [discriminate|].
        destruct ((c <? 55296) || ((57343 <? c) && (c <=? 1114111))); simpl in *; auto. }
      apply existsb_exists in N. destruct N as [x [Hin Hn]].
      exists x. split; [assumption|]. now apply negb_true_iff in Hn. }
    destruct Hx as [x [Hin Hbad]].
    assert (Hsp : isspace x = false).
    { destruct (isspace x) eqn:S; [|reflexivity]. exfalso.
      unfold isspace, in_range in S.
      assert (x < 55296) by
        (repeat match goal with
                | H : (_ || _) = true |- _ => apply orb_true_iff in H; destruct H as [H|H]
                | H : (_ && _) = true |- _ => apply andb_true_iff in H; destruct H as [? H]
                | H : (_ =? _) = true |- _ => apply N.eqb_eq in H
                | H : (_ <=? _) = true |- _ => apply N.leb_le in H
                end; lia).
      apply N.ltb_lt in H. rewrite H in Hbad. discriminate. }
    destruct (@in_split_cases NL content x Hin) as [->|[line [Hline Hxl]]]; [discriminate|].
    assert (Hd : In x (build_text (line_runs line))).
    { rewrite line_text. destruct (startswith line (py "http")).
      - now apply strip_keeps.
      - apply in_or_app. now left. }
    apply in_build_text in Hd. destruct Hd as [r [Hr Hxr]].
    assert (In r (rich_runs content)) by (unfold rich_runs; apply in_flat_map; eauto).
    specialize (Hacc r H). rewrite (@utf8_builder_refuses r x Hxr Hbad) in Hacc. discriminate.
  - rewrite make_rich_calls in R. apply run_calls_raises in R.
    destruct R as [r [_ Hr]]. unfold utf8_builder in Hr.
    destruct (encodable (display r)); [discriminate|]. now injection Hr as <-.
Qed.

(* ===================================================================== *)
(** * [desescapar_unicode]: when [html.unescape] can raise *)
(* ===================================================================== *)

Lemma opt_semi_shape g rest :
  fst (opt_semi g rest) = g \/ fst (opt_semi g rest) = g ++ [SEMI].
Proof.
  destruct rest as [|c r]; simpl; [now left|].
  destruct (c =? SEMI); simpl; auto.
Qed.

Lemma opt_semi_lengths g rest :
  (length (fst (opt_semi g rest)) + length (snd (opt_semi g rest))
   = length g + length rest)%nat.
Proof.
  destruct rest as [|c r]; simpl; [lia|].
  destruct (c =? SEMI); simpl; rewrite ?length_app; simpl; lia.
Qed.

Lemma take_while_length p s : (length (take_while p s) <= length s)%nat.
Proof.
  induction s as [|c r IH]; simpl; [lia|]. destruct (p c); simpl; lia.
Qed.

Lemma take_drop_length p s :
  (length (take_while p s) + length (drop_while p s) = length s)%nat.
Proof. rewrite <- length_app. now rewrite take_drop_while. Qed.

Lemma take_upto_head n p s c nm : take_upto n p s = c :: nm -> p c = true.
Proof.
  destruct n as [|n]; destruct s as [|x r]; simpl; try discriminate.
  destruct (p x) eqn:E; [|discriminate]. now intros [= <- _].
Qed.

Lemma take_upto_length n p s : (length (take_upto n p s) <= length s)%nat.
Proof.
  revert s; induction n as [|n IH]; intros [|x r]; simpl; try lia.
  destruct (p x); simpl; [specialize (IH r)|]; lia.
Qed.

(** Group 1 of a match: shorter than the text it was found in, not
    empty, and when it starts with [#] followed by a character at least. *)
Lemma match_charref_group s g rest :
  match_charref s = Some (g, rest) ->
  (length g < length s)%nat /\
  exists h g', g = h :: g' /\ (h = HASH -> g' <> []).
Proof.
  assert (Hsemi : forall h g0 rest0 n,
             (length (h :: g0) + length rest0 <= n)%nat ->
             (h = HASH -> g0 <> []) ->
             Some (opt_semi (h :: g0) rest0) = Some (g, rest) ->
             (length g < S n)%nat /\
             exists h' g', g = h' :: g' /\ (h' = HASH -> g' <> [])).
  { intros h g0 rest0 n Hn Hh [= E].
    pose proof (opt_semi_lengths (h :: g0) rest0) as L.
    pose proof (opt_semi_shape (h :: g0) rest0) as S.
    rewrite E in L, S. simpl fst in *. simpl snd in *. split; [lia|].
    destruct S as [->| ->].
    - exists h, g0. auto.
    - exists h, (g0 ++ [SEMI]). split; [reflexivity|].
      intros _ F. apply app_eq_nil in F. destruct F; discriminate. }
  destruct s as [|c [|h r1]]; try discriminate.
  unfold match_charref. cbn [length].
  destruct (c =? AMP); [|discriminate].
  destruct (h =? HASH) eqn:Hh.
  - destruct (take_while is_digit r1) as [|d ds] eqn:T.
    + destruct r1 as [|x r2]; [discriminate|].
      destruct ((x =? 120) || (x =? 88)); [|discriminate].
      destruct (take_while is_hexdigit r2) as [|d ds] eqn:T2; [discriminate|].
      apply Hsemi; [|discriminate].
      pose proof (take_drop_length is_hexdigit r2) as L. rewrite T2 in L.
      cbn [length] in *. lia.
    + apply Hsemi; [|discriminate].
      pose proof (take_drop_length is_digit r1) as L. rewrite T in L.
      cbn [length] in *. lia.
  - destruct (take_upto 32 name_char (h :: r1)) as [|c0 nm] eqn:En; [discriminate|].
    apply Hsemi.
    + pose proof (take_upto_length 32 name_char (h :: r1)) as L1. rewrite En in L1.
      pose proof (length_skipn (length (c0 :: nm)) (h :: r1)) as L2.
      cbn [length] in *. lia.
    + intros ->. apply take_upto_head in En. discriminate.
Qed.

Lemma rstrip_char_length c s : (length (rstrip_char c s) <= length s)%nat.
Proof.
  unfold rstrip_char. rewrite length_rev.
  pose proof (drop_while_length (N.eqb c) (rev s)) as L.
  now rewrite length_rev in L.
Qed.

Lemma replace_charref_ok html5 g :
  (length g <= max_str_digits)%nat ->
  (exists h g', g = h :: g' /\ (h = HASH -> g' <> [])) ->
  exists rep, replace_charref html5 g = Ok rep.
Proof.
  intros Hlen [h [g' [-> Hh]]]. unfold replace_charref.
  destruct (h =? HASH) eqn:E.
  - apply N.eqb_eq in E. specialize (Hh E).
    destruct g' as [|x s2]; [congruence|].
    assert (Hnum : exists num,
               (if (x =? 120) || (x =? 88)
                then Ok (int_of 16 (rstrip_char SEMI s2))
                else if Nat.ltb max_str_digits (length (rstrip_char SEMI (x :: s2)))
                     then Raise ValueError
                     else Ok (int_of 10 (rstrip_char SEMI (x :: s2)))) = Ok num).
    { destruct ((x =? 120) || (x =? 88)); [eauto|].
      pose proof (rstrip_char_length SEMI (x :: s2)) as L.
      replace (Nat.ltb max_str_digits (length (rstrip_char SEMI (x :: s2)))) with false
        by (symmetry; apply Nat.ltb_ge; cbn [length] in *; lia).
      eauto. }
    destruct Hnum as [num ->]. cbn [bind].
    destruct (assoc num invalid_charrefs); [eauto|].
    destruct (in_range 55296 57343 num || (1114111 <? num)); [eauto|].
    destruct (invalid_codepoint num); eauto.
  - destruct (html5 (h :: g')); [eauto|].
    destruct (longest_name html5 (length (h :: g') - 1) (h :: g')); eauto.
Qed.

Lemma charref_sub_ok html5 s :
  (length s <= max_str_digits)%nat -> exists t, charref_sub html5 s = Ok t.
Proof.
  funelim (charref_sub html5 s); intros Hlen.
  - now exists [].
  - destruct (match_charref_group _ e) as [Hg Hshape].
    pose proof (match_charref_shorter _ e) as Hrest.
    destruct (@replace_charref_ok html5 g) as [rep ->]; [lia | assumption|].
    destruct (H rep) as [tl ->]; [lia|]. simpl. eauto.
  - destruct H as [tl ->]; [cbn [length] in Hlen; lia|]. simpl. eauto.
Qed.

(** X6.  On a text of at most 4300 characters [html.unescape] does not
    raise, so [desescapar_unicode] returns the unescaped text and never its
    fallback. *)
Theorem desescapar_unicode_short :
  forall (html5 : str -> option str) (s : str),
    (length s <= max_str_digits)%nat ->
    exists t, unescape html5 s = Ok t /\ desescapar_unicode html5 s = t.
Proof.
  intros html5 s Hlen. unfold desescapar_unicode, unescape.
  destruct (negb (existsb (N.eqb AMP) s)); [eauto|].
  destruct (charref_sub_ok html5 s Hlen) as [t ->]. eauto.
Qed.

Lemma desescapar_unicode_short_witness :
  exists t, unescape Scenario.html5 (py "Old &amp; gone &#38;") = Ok t /\
            desescapar_unicode Scenario.html5 (py "Old &amp; gone &#38;") = t.
Proof.
  apply (desescapar_unicode_short Scenario.html5 (py "Old &amp; gone &#38;")).
  apply Nat.leb_le. vm_compute. reflexivity.
Defined.

(* ===================================================================== *)
(** * The Latin-1 tier of the normalizer *)
(* ===================================================================== *)

(** X18.  When the detector gives no text, the feed is read as Latin-1:
    one character per byte, and encoding the text as Latin-1 gives the
    feed's bytes back, so nothing is lost; [fix_encoding] then turns such
    text into the UTF-8 reading of the bytes when they are well-formed
    UTF-8. *)
Theorem decode_feed_latin1_lossless :
  forall (charset_best : bytes -> option CharsetMatch) (response_content : bytes),
    (charset_best response_content = None \/
     charset_best response_content = Some {| cm_text := None |}) ->
    exists s,
      decode_feed charset_best response_content = Ok s /\
      length s = length response_content /\
      latin1_encode s = Ok response_content /\
      fix_encoding s = Ok (match utf8_decode Strict response_content with
                           | Ok t => t
                           | Raise _ => s
                           end).
Proof.
  intros charset_best bs H. exists (map Byte.to_N bs).
  assert (E : decode_feed charset_best bs = Ok (map Byte.to_N bs)).
  { unfold decode_feed. destruct H as [-> | ->]; reflexivity. }
  split; [exact E|]. split; [apply length_map|].
  split; [apply latin1_encode_decode | apply fix_encoding_repairs_aux].
Qed.

Lemma decode_feed_latin1_lossless_witness :
  exists s,
    decode_feed (fun _ => None) [Byte.xc3; Byte.xa9] = Ok s /\
    length s = 2%nat /\
    latin1_encode s = Ok [Byte.xc3; Byte.xa9] /\
    fix_encoding s = Ok [233].
Proof.
  apply (decode_feed_latin1_lossless (fun _ => None) [Byte.xc3; Byte.xa9]).
  now left.
Defined.

(* ===================================================================== *)
(** * The driver's properties in the small worlds *)
(* ===================================================================== *)


Lemma make_rich_display_text_witness :
  make_rich utf8_builder (py "Title #tag" ++ [NL] ++ py "more")
  = Ok (rich_runs (py "Title #tag" ++ [NL] ++ py "more")) /\
  build_text (rich_runs (py "Title #tag" ++ [NL] ++ py "more"))
  = (py "Title #tag" ++ [NL] ++ py "more") ++ [NL].
Proof.
  pose proof (make_rich_display_text utf8_builder (py "Title #tag" ++ [NL] ++ py "more"))
    as [Hok [Hruns _]].
  assert (R : make_rich utf8_builder (py "Title #tag" ++ [NL] ++ py "more")
              = Ok (rich_runs (py "Title #tag" ++ [NL] ++ py "more"))).
  { apply Hok. intros r Hr. vm_compute in Hr.
    repeat (destruct Hr as [<-|Hr]; [reflexivity|]). destruct Hr. }
  split; [exact R|]. apply (proj2 (Hruns _ R)). reflexivity.
Defined.

Lemma hashtag_runs_witness :
  In (Hashtag (py "#tag") (py "tag"))
     (rich_runs (py "Title #tag" ++ [NL] ++ py "http://x.test/a")) /\
  In (PlainText [NL]) (rich_runs (py "Title #tag" ++ [NL] ++ py "http://x.test/a")).
Proof.
  pose proof (hashtag_runs utf8_builder (py "Title #tag" ++ [NL] ++ py "http://x.test/a"))
    as [_ H].
  specialize (H _ (make_rich_utf8 (py "Title #tag" ++ [NL] ++ py "http://x.test/a") eq_refl)).
  destruct H as [_ H].
  destruct (H (py "Title #tag")) as [_ [_ [_ [Htags Hlast]]]].
  - vm_compute. now left.
  - reflexivity.
  - split.
    + destruct (Htags 1%nat (py "#tag") eq_refl eq_refl) as [tag [E [_ [_ [_ Hin]]]]].
      injection E as <-. exact Hin.
    + exact (proj2 (Hlast [] eq_refl eq_refl)).
Defined.

Lemma embed_selection_witness :
  exists embed,
    fst (Preview.embed_of 200) = Ok embed /\
    embed = Some (EmbedImages [{| alt := py "New"; image := py "blob" |}]).
Proof.
  destruct (embed_selection Scenario.html5 (fun t => Ok t) (fun _ => Ok tt)
              Preview.soup_find (fun _ => Ok tt) utf8_builder
              (fun _ _ => Ok (py "blob")) (fun _ _ _ => Ok tt) (Preview.httpx_get 200)
              (py "New") (py "http://x.test/new") [])
    as [md [embed [h' [F [C [_ [Himg _]]]]]]].
  exists embed. split.
  - unfold Preview.embed_of. now rewrite C.
  - assert (Hmd : meta_image md = Some (py "http://x.test/i.png")).
    { vm_compute in F. now injection F as <-. }
    destruct (Himg (py "blob")) as [alt_text [E [Halt _]]].
    + exists (py "http://x.test/i.png"). split; [exact Hmd|]. split; [discriminate|].
      exists {| status_code := 200%Z; text := []; content := [] |}.
      repeat split.
    + rewrite E, Halt by discriminate. reflexivity.
Defined.

Lemma fetch_link_metadata_degrades_witness :
  process_item Scenario.html5 (fun t => Ok t) (fun _ => Ok tt) (fun _ _ => None)
    Scenario.raise_for_status utf8_builder (fun _ _ => Raise RemoteError)
    (fun _ _ _ => Ok tt) Scenario.httpx_get 100%Z Preview.item []
  = (Ok tt,
     [] ++ [ EvHttpGet (py "http://x.test/new");
             EvSendPost [ PlainText (py "New" ++ [NL]);
                          Link (py "http://x.test/new") (py "http://x.test/new") ]
               None ]).
Proof.
  refine (proj2 (proj2 (proj2 (proj2 (fetch_link_metadata_degrades Scenario.html5
                                        (fun t => Ok t) (fun _ => Ok tt) (fun _ _ => None)
                                        Scenario.raise_for_status utf8_builder
                                        (fun _ _ => Raise RemoteError) (fun _ _ _ => Ok tt)
                                        Scenario.httpx_get (py "http://x.test/new") []))
                                HTTPError _))
            100%Z Preview.item 150%Z (py "New") _ _ _).
  - left. reflexivity.
  - vm_compute. reflexivity.
  - reflexivity.
Defined.


Lemma fetch_link_metadata_fields_witness :
  exists md,
    fetch_link_metadata (fun _ => Ok tt) Preview.soup_find (fun _ => Ok tt)
      (Preview.httpx_get 200) (py "http://x.test/new") []
    = (Ok md, [EvHttpGet (py "http://x.test/new")]) /\
    meta_title md = Some (py "Page") /\
    meta_description md = Some [] /\
    meta_image md = Some (py "http://x.test/i.png").
Proof.
  destruct (fetch_link_metadata_fields (fun _ => Ok tt) Preview.soup_find
              (fun _ => Ok tt) (Preview.httpx_get 200) (py "http://x.test/new") []
              (r := {| status_code := 200; text := []; content := [] |}) (soup := tt)
              eq_refl eq_refl eq_refl)
    as [md [E [_ [_ [Ht [_ [_ [Hi _]]]]]]]].
  exists md. split; [exact E|].
  split; [exact (Ht _ eq_refl)|].
  split; [|exact (Hi _ eq_refl)].
  injection E as <-. reflexivity.
Defined.



Lemma login_loop_ends_witness :
  login_loop Scenario.client_login 7 (py "me") (py "secret") 60 []
  = (Ok true,
     [] ++ failed_attempts (py "me") (py "secret") 2
        ++ [EvLogin (py "me") (py "secret") true]).
Proof.
  apply (login_loop_ends Scenario.client_login (py "me") (py "secret") [] (n := 2)).
  - intros [|[|j]] Hj; [reflexivity | reflexivity | lia].
  - reflexivity.
  - lia.
Defined.
